(** * bulk_clone_repos.py: a shallow embedding and its verified properties

    The script ranks GitHub repositories by star count through the GitHub
    API (with an on-disk cache and a size filter), writes a markdown report,
    and clones or updates the selected repositories.

    Modelling conventions.
    - Python values that travel through the cache file and the API bodies
      are JSON values ([json]); JSON numbers are integers ([Z]) and JSON
      arrays are left out: the cache file is written by [_save_cache] from
      [None] and [{url, stars, size}] records, and the two API fields read
      by the script are integers.
    - [str] is a byte string (UTF-8); [str.lower] and [str.strip] act on the
      ASCII range.
    - Exceptions are explicit ([result]); [Stalled] is a request for which
      the scripted environment holds no reply.
    - The network is a script of replies consumed one per [requests.get];
      the clock is a rational advanced by [time.sleep] (binary floating
      point is idealised).  [response.json()] failing raises
      [requests.exceptions.JSONDecodeError], a [RequestException]
      (requests 2.27 and later).
    - Console output ([print]) is not part of the model. *)

From Stdlib Require Import String Ascii List ZArith QArith Qminmax Qround Lia Lqa Bool.
From Stdlib Require Import DecimalString Permutation Sorted.
From stdpp Require Import gmap strings sorting.

(** ** Python runtime *)

Module Py.

Inductive exn : Type :=
| TypeError
| AttributeError
| ValueError
| KeyError
| IndexError
| RequestException
| CalledProcessError
| SystemExit (code : Z).

Inductive result (A : Type) : Type :=
| Ret (a : A)
| Raise (e : exn)
| Stalled.

Arguments Ret {A} a.
Arguments Raise {A} e.
Arguments Stalled {A}.


#[global] Instance result_ret : MRet result := fun A a => Ret a.
#[global] Instance result_bind : MBind result := fun A B f m =>
  match m with
  | Ret a => f a
  | Raise e => Raise e
  | Stalled => Stalled
  end.

(** *** Strings *)

Definition is_slash (c : ascii) : bool := Ascii.eqb c "/".

(** ASCII white space, as removed by [str.strip()] and skipped by [int()]:
    the space, [\t] to [\r], and the separators [\x1c] to [\x1f]. *)
Definition is_space (c : ascii) : bool :=
  let n := nat_of_ascii c in
  (n =? 32)%nat || ((9 <=? n)%nat && (n <=? 13)%nat)
  || ((28 <=? n)%nat && (n <=? 31)%nat).

Fixpoint lstrip (p : ascii -> bool) (s : string) : string :=
  match s with
  | EmptyString => EmptyString
  | String c r => if p c then lstrip p r else s
  end.

Fixpoint rstrip (p : ascii -> bool) (s : string) : string :=
  match s with
  | EmptyString => EmptyString
  | String c r =>
      match rstrip p r with
      | EmptyString => if p c then EmptyString else String c EmptyString
      | r' => String c r'
      end
  end.

(** [s.strip(chars)] *)
Definition strip (p : ascii -> bool) (s : string) : string :=
  rstrip p (lstrip p s).

(** [s.split(sep)] for a one-character separator. *)
Fixpoint split (sep : ascii) (s : string) : list string :=
  match s with
  | EmptyString => [EmptyString]
  | String c r =>
      if Ascii.eqb c sep then EmptyString :: split sep r
      else match split sep r with
           | [] => [String c EmptyString]
           | w :: ws => String c w :: ws
           end
  end.

(** [old in s] (substring test). *)
Fixpoint contains (old s : string) : bool :=
  String.prefix old s ||
  match s with
  | EmptyString => false
  | String _ r => contains old r
  end.

(** [s.replace(old, new)] for a non-empty [old]: matches are found left to
    right and do not overlap; [skip] counts the characters of a match still
    to be dropped. *)
Fixpoint replace_from (old new : string) (skip : nat) (s : string) : string :=
  match s with
  | EmptyString => EmptyString
  | String c r =>
      match skip with
      | S k => replace_from old new k r
      | O =>
          if String.prefix old s
          then new +:+ replace_from old new (String.length old - 1) r
          else String c (replace_from old new 0 r)
      end
  end.

Definition replace (old new s : string) : string := replace_from old new 0 s.

Definition lower_ascii (c : ascii) : ascii :=
  let n := nat_of_ascii c in
  if (65 <=? n)%nat && (n <=? 90)%nat then ascii_of_nat (n + 32) else c.

Fixpoint lower (s : string) : string :=
  match s with
  | EmptyString => EmptyString
  | String c r => String (lower_ascii c) (lower r)
  end.

(** [sep.join(l)] *)
Definition join (sep : string) (l : list string) : string := String.concat sep l.

(** [l[-2:]] *)
Definition last_two {A} (l : list A) : list A := skipn (length l - 2) l.

(** [l[-1]] and [l[-2]] *)
Definition index_last {A} (l : list A) : result A :=
  match rev l with
  | x :: _ => Ret x
  | [] => Raise IndexError
  end.

Definition index_last_but_one {A} (l : list A) : result A :=
  match rev l with
  | _ :: x :: _ => Ret x
  | _ => Raise IndexError
  end.

(** [l[:n]] for any integer [n]: a negative [n] is counted from the end. *)
Definition slice_to {A} (n : Z) (l : list A) : list A :=
  if (0 <=? n)%Z then firstn (Z.to_nat n) l
  else firstn (length l - Z.to_nat (- n)) l.

(** [str(n)] for an [int]. *)
Definition str_of_Z (n : Z) : string := NilZero.string_of_int (Z.to_int n).

(** [int(s)] for a [str]: surrounding white space, an optional sign, decimal
    digits, single underscores between digits. *)
Definition digit_of (c : ascii) : option Z :=
  let n := nat_of_ascii c in
  if (48 <=? n)%nat && (n <=? 57)%nat then Some (Z.of_nat (n - 48)) else None.

(** [acc] is the value read so far, [after_digit] whether the previous
    character was a digit (an underscore is legal only between digits). *)
Fixpoint int_digits (acc : Z) (after_digit : bool) (s : string) : option Z :=
  match s with
  | EmptyString => if after_digit then Some acc else None
  | String c r =>
      match digit_of c with
      | Some d => int_digits (10 * acc + d) true r
      | None =>
          if Ascii.eqb c "_" && after_digit
          then match r with
               | EmptyString => None
               | String c' _ =>
                   match digit_of c' with
                   | Some _ => int_digits acc false r
                   | None => None
                   end
               end
          else None
      end
  end.

Definition int_of_str (s : string) : result Z :=
  let body := strip is_space s in
  let parsed :=
    match body with
    | String "-" r => option_map Z.opp (int_digits 0 false r)
    | String "+" r => int_digits 0 false r
    | _ => int_digits 0 false body
    end in
  match parsed with
  | Some n => Ret n
  | None => Raise ValueError
  end.

(** [int(x)] for a [float]: truncation towards zero. *)
Definition int_of_Q (x : Q) : Z := Z.quot (Qnum x) (Z.pos (Qden x)).

(** Every character of [s] satisfies [p]. *)
Fixpoint all_chars (p : ascii -> bool) (s : string) : bool :=
  match s with
  | EmptyString => true
  | String c r => p c && all_chars p r
  end.

(** *** JSON values as Python objects *)

#[warnings="-register-all"]
Inductive json : Type :=
| JNull
| JBool (b : bool)
| JInt (n : Z)
| JStr (s : string)
| JDict (d : list (string * json)).

Fixpoint dict_get (k : string) (d : list (string * json)) : option json :=
  match d with
  | [] => None
  | (k', v) :: r => if String.eqb k' k then Some v else dict_get k r
  end.

(** [k in v] *)
Definition py_contains (k : string) (v : json) : result bool :=
  match v with
  | JDict d => Ret (bool_decide (is_Some (dict_get k d)))
  | JStr s => Ret (contains k s)
  | _ => Raise TypeError
  end.

(** [v[k]] for a string key. *)
Definition py_getitem (v : json) (k : string) : result json :=
  match v with
  | JDict d =>
      match dict_get k d with
      | Some x => Ret x
      | None => Raise KeyError
      end
  | _ => Raise TypeError
  end.

(** [v.get(k, default)] *)
Definition py_get (v : json) (k : string) (dflt : json) : result json :=
  match v with
  | JDict d => Ret (default dflt (dict_get k d))
  | _ => Raise AttributeError
  end.

(** [v > n] for an [int] [n]; [bool] is a subclass of [int]. *)
Definition py_gt_int (v : json) (n : Z) : result bool :=
  match v with
  | JInt m => Ret (n <? m)%Z
  | JBool b => Ret (n <? Z.b2z b)%Z
  | _ => Raise TypeError
  end.

(** Truth value of an object, as tested by [if v:] and [if not v:]. *)
Definition py_truthy (v : json) : bool :=
  match v with
  | JNull => false
  | JBool b => b
  | JInt n => negb (n =? 0)%Z
  | JStr s => negb (String.eqb s "")
  | JDict d => negb (bool_decide (d = []))
  end.

End Py.

Import Py.

(** ** Configuration *)

Record Config : Type := {
  REPO_LIST_FILE : string;
  CLONE_DIR : string;
  TOP_N_REPOS : Z;
  MARKDOWN_RESULT_FILE : string;
  API_CACHE_FILE : string;
  GITHUB_TOKEN : option string;
  MAX_REPO_SIZE_KB : Z
}.

(** [Config()]: the class attributes; the token is read from the process
    environment. *)
Definition Config_init (environ_GITHUB_TOKEN : option string) : Config := {|
  REPO_LIST_FILE := "README.txt";
  CLONE_DIR := "community-templates";
  TOP_N_REPOS := 50;
  MARKDOWN_RESULT_FILE := "filtered.md";
  API_CACHE_FILE := "api_cache.json";
  GITHUB_TOKEN := environ_GITHUB_TOKEN;
  MAX_REPO_SIZE_KB := 5120
|}.

(** ** The network and the clock *)

Record Response : Type := {
  status_code : Z;
  headers : list (string * string);
  (** [None]: [response.json()] raises [JSONDecodeError]. *)
  json_body : option json
}.

Inductive Reply : Type :=
| ConnectionFailed          (** [requests.get] raises a [RequestException] *)
| Answer (response : Response).

Inductive Event : Type :=
| EGet (url : string) (hdrs : list (string * string))
| ESleep (seconds : Q).

Record Net : Type := {
  pending : list Reply;
  now : Q;
  trace : list Event
}.

(** [response.headers] is a case-insensitive dictionary. *)
Definition headers_get (name : string) (hs : list (string * string)) : option string :=
  match find (fun kv => String.eqb (lower kv.1) (lower name)) hs with
  | Some kv => Some kv.2
  | None => None
  end.

(** ** Metadata fetcher *)

Module Fetch.

(** [repo_url in cache and 'size' in cache[repo_url]] *)
Definition cache_has_size (repo_url : string) (cache : gmap string json) : result bool :=
  match cache !! repo_url with
  | None => Ret false
  | Some entry => py_contains "size" entry
  end.

(** Lines 113-119: the body of the cache branch. *)
Definition cached_answer (repo_url : string) (cache : gmap string json)
    (config : Config) : result json :=
  match cache !! repo_url with
  | None => Raise KeyError
  | Some JNull => Ret JNull
  | Some entry =>
      size ← py_getitem entry "size";
      too_big ← py_gt_int size (MAX_REPO_SIZE_KB config);
      if too_big : bool then Ret JNull else Ret entry
  end.

Definition api_url_of (repo_url : string) : string :=
  "https://api.github.com/repos/" +:+
  replace ".git" "" (join "/" (last_two (split "/" (strip is_slash repo_url)))).

Definition request_headers (config : Config) : list (string * string) :=
  let hdrs := [("Accept", "application/vnd.github.v3+json")] in
  match GITHUB_TOKEN config with
  | Some token =>
      if String.eqb token "" then hdrs
      else hdrs ++ [("Authorization", "token " +:+ token)]
  | None => hdrs
  end.

Definition excluded_status (response : Response) : bool :=
  bool_decide (status_code response ∈ [404; 403; 451]%Z).

(** [response.status_code == 429 or ('X-RateLimit-Remaining' in
    response.headers and int(response.headers['X-RateLimit-Remaining']) == 0)] *)
Definition rate_limited (response : Response) : result bool :=
  if (status_code response =? 429)%Z then Ret true
  else match headers_get "X-RateLimit-Remaining" (headers response) with
       | Some v => n ← int_of_str v; Ret (n =? 0)%Z
       | None => Ret false
       end.

(** [int(response.headers.get('X-RateLimit-Reset', time.time() + 60))] *)
Definition reset_time_of (response : Response) (time_time : Q) : result Z :=
  match headers_get "X-RateLimit-Reset" (headers response) with
  | Some v => int_of_str v
  | None => Ret (int_of_Q (time_time + 60))
  end.

(** [max(reset_time - time.time(), 0) + 1] *)
Definition wait_time_of (reset_time : Z) (time_time : Q) : Q :=
  Qmax (inject_Z reset_time - time_time) 0 + 1.

(** Lines 136-153: [raise_for_status], decoding, the size filter and the
    cache write. *)
Definition store_fetched (repo_url : string) (cache : gmap string json)
    (config : Config) (response : Response) : result json * gmap string json :=
  if (400 <=? status_code response)%Z && (status_code response <? 600)%Z
  then (Raise RequestException, cache)
  else match json_body response with
       | None => (Raise RequestException, cache)
       | Some data =>
           match py_get data "size" (JInt 0) with
           | Ret repo_size_kb =>
               match py_gt_int repo_size_kb (MAX_REPO_SIZE_KB config) with
               | Ret true => (Ret JNull, <[repo_url := JNull]> cache)
               | Ret false =>
                   match py_get data "stargazers_count" (JInt 0) with
                   | Ret stars =>
                       let result := JDict [("url", JStr repo_url);
                                            ("stars", stars);
                                            ("size", repo_size_kb)] in
                       (Ret result, <[repo_url := result]> cache)
                   | Raise e => (Raise e, cache)
                   | Stalled => (Stalled, cache)
                   end
               | Raise e => (Raise e, cache)
               | Stalled => (Stalled, cache)
               end
           | Raise e => (Raise e, cache)
           | Stalled => (Stalled, cache)
           end
       end.

(** [except requests.exceptions.RequestException: return None] *)
Definition except_RequestException {S : Type} (o : result json * S) : result json * S :=
  match o with
  | (Raise RequestException, st) => (Ret JNull, st)
  | _ => o
  end.

(** [_fetch_repo_metadata(repo_url, cache, config)].  The retry after a
    rate-limit answer is the recursive call of line 134; it consumes the next
    scripted reply. *)
Fixpoint fetch_from (replies : list Reply) (clock : Q) (events : list Event)
    (repo_url : string) (cache : gmap string json) (config : Config)
    : result json * (gmap string json * Net) :=
  let net := {| pending := replies; now := clock; trace := events |} in
  match cache_has_size repo_url cache with
  | Raise e => (Raise e, (cache, net))
  | Stalled => (Stalled, (cache, net))
  | Ret true => (cached_answer repo_url cache config, (cache, net))
  | Ret false =>
      let sent := events ++ [EGet (api_url_of repo_url) (request_headers config)] in
      match replies with
      | [] => (Stalled, (cache, {| pending := []; now := clock; trace := sent |}))
      | reply :: rest =>
          let net1 := {| pending := rest; now := clock; trace := sent |} in
          except_RequestException
            match reply with
            | ConnectionFailed => (Raise RequestException, (cache, net1))
            | Answer response =>
                if excluded_status response then (Ret JNull, (cache, net1))
                else
                  match rate_limited response with
                  | Raise e => (Raise e, (cache, net1))
                  | Stalled => (Stalled, (cache, net1))
                  | Ret true =>
                      match reset_time_of response clock with
                      | Raise e => (Raise e, (cache, net1))
                      | Stalled => (Stalled, (cache, net1))
                      | Ret reset_time =>
                          let wait_time := wait_time_of reset_time clock in
                          fetch_from rest (clock + wait_time)
                            (sent ++ [ESleep wait_time]) repo_url cache config
                      end
                  | Ret false =>
                      let '(r, cache') := store_fetched repo_url cache config response in
                      (r, (cache', net1))
                  end
            end
      end
  end.

Definition _fetch_repo_metadata (repo_url : string) (cache : gmap string json)
    (config : Config) (net : Net) : result json * (gmap string json * Net) :=
  fetch_from (pending net) (now net) (trace net) repo_url cache config.

(** Vocabulary of the statements about the fetcher. *)

(** The request the fetcher sends for [repo_url]. *)
Definition request_of (repo_url : string) (config : Config) : Event :=
  EGet (api_url_of repo_url) (request_headers config).

(** The API answers successfully with the JSON object [data]: the status is
    none of the excluded ones, nothing signals a rate limit, the status is
    no HTTP error and the body decodes. *)
Definition succeeds (response : Response) (data : list (string * json)) : Prop :=
  excluded_status response = false /\
  rate_limited response = Ret false /\
  ((400 <=? status_code response)%Z && (status_code response <? 600)%Z) = false /\
  json_body response = Some (JDict data).

(** [data.get("size", 0)] and [data.get("stargazers_count", 0)] *)
Definition fetched_size (data : list (string * json)) : json :=
  default (JInt 0) (dict_get "size" data).

Definition fetched_stars (data : list (string * json)) : json :=
  default (JInt 0) (dict_get "stargazers_count" data).

Definition metadata_record (repo_url : string) (stars size : json) : json :=
  JDict [("url", JStr repo_url); ("stars", stars); ("size", size)].


(** A transport-level failure: [requests.get] raises, or the answer is an
    HTTP error or an undecodable body and carries no rate-limit signal. *)
Definition transport_failure (reply : Reply) : Prop :=
  reply = ConnectionFailed \/
  exists response, reply = Answer response /\
    excluded_status response = false /\
    rate_limited response = Ret false /\
    (((400 <=? status_code response)%Z && (status_code response <? 600)%Z) = true \/
     json_body response = None).

(** The cache after an optional write under [repo_url]. *)
Definition written (repo_url : string) (w : option json) (cache : gmap string json)
    : gmap string json :=
  match w with
  | Some entry => <[repo_url := entry]> cache
  | None => cache
  end.

End Fetch.

(** ** The Python runtime services left abstract, and the world *)

Record Runtime : Type := {
  (** [f"{n / 1024:.2f}"]: float division and formatting. *)
  format_mb_2f : Z -> string;
  (** [str(d)] for a [dict]. *)
  repr_dict : list (string * json) -> string;
  (** [list(set(l))]: the iteration order of a set of strings. *)
  set_order : list string -> list string
}.

Record datetime : Type := {
  year : nat; month : nat; day : nat;
  hour : nat; minute : nat; second : nat
}.

(** How a [subprocess.run(..., check=True)] ends: exit status zero, or a
    non-zero status (raising [CalledProcessError]). *)
Inductive RunOutcome : Type :=
| ExitZero
| ExitNonZero (stderr : string).

(** The local side: existing directories, the scripted outcomes of the
    [subprocess.run] calls to come, and the commands run so far. *)
Record Shell : Type := {
  dirs : gset string;
  outcomes : list RunOutcome;
  commands : list (list string)
}.

(** The three files of the configuration are kept apart (their paths are
    distinct in [Config]); file operations other than opening an absent
    file succeed.  [cache_file]: absent, or present and either undecodable
    ([Some None]) or a JSON object. *)
Record World : Type := {
  repo_list_file : option string;
  report_file : option string;
  cache_file : option (option (gmap string json));
  net : Net;
  today : datetime;
  shell : Shell
}.

Definition LF : ascii := ascii_of_nat 10.
Definition CR : ascii := ascii_of_nat 13.
Definition nl : string := String LF EmptyString.

(** [for line in f] on a file opened in text mode: lines keep their
    terminator, and [\r\n] and [\r] are read as [\n]. *)
Fixpoint lines_from (cur : string) (s : string) : list string :=
  match s with
  | EmptyString => if String.eqb cur "" then [] else [cur]
  | String c r =>
      if Ascii.eqb c LF then (cur +:+ nl) :: lines_from "" r
      else if Ascii.eqb c CR then
        match r with
        | String c' r' =>
            if Ascii.eqb c' LF then (cur +:+ nl) :: lines_from "" r'
            else (cur +:+ nl) :: lines_from "" r
        | EmptyString => [cur +:+ nl]
        end
      else lines_from (cur +:+ String c EmptyString) r
  end.

Definition file_lines (content : string) : list string := lines_from "" content.

(** ** Report writer and parser *)

Module Report.

(** [str(v)], as an f-string field formats it. *)
Definition py_str (rt : Runtime) (v : json) : string :=
  match v with
  | JNull => "None"
  | JBool true => "True"
  | JBool false => "False"
  | JInt n => str_of_Z n
  | JStr s => s
  | JDict d => repr_dict rt d
  end.

(** The receiver of a [str] method call. *)
Definition as_str (v : json) : result string :=
  match v with
  | JStr s => Ret s
  | _ => Raise AttributeError
  end.

(** [f"{v / 1024:.2f} MB"] *)
Definition size_mb_of (rt : Runtime) (v : json) : result string :=
  match v with
  | JInt n => Ret (format_mb_2f rt n +:+ " MB")
  | JBool b => Ret (format_mb_2f rt (Z.b2z b) +:+ " MB")
  | _ => Raise TypeError
  end.

Definition pad2 (n : nat) : string :=
  if (n <? 10)%nat then "0" +:+ str_of_Z (Z.of_nat n) else str_of_Z (Z.of_nat n).

(** [t.strftime('%Y-%m-%d %H:%M:%S')] *)
Definition strftime (t : datetime) : string :=
  str_of_Z (Z.of_nat (year t)) +:+ "-" +:+ pad2 (month t) +:+ "-" +:+ pad2 (day t)
  +:+ " " +:+ pad2 (hour t) +:+ ":" +:+ pad2 (minute t) +:+ ":" +:+ pad2 (second t).

(** Lines 160-164; [Config.MAX_REPO_SIZE_KB / 1024] is the class attribute,
    [5120 / 1024], printed [5.0]. *)
Definition report_header (n_repos : nat) (t : datetime) : string :=
  ("# Top " +:+ str_of_Z (Z.of_nat n_repos) +:+ " Kho Chứa Git (Nhỏ hơn 5.0MB)" +:+ nl +:+ nl)
  +:+ ("*Tự động tạo lúc: " +:+ strftime t +:+ "*" +:+ nl)
  +:+ ("*Xóa file này để buộc kịch bản lấy lại dữ liệu mới từ API.*" +:+ nl +:+ nl)
  +:+ ("| Hạng | Tên Kho Chứa | ⭐ Sao | Kích thước | URL |" +:+ nl)
  +:+ ("|------|--------------|-------|------------|-----|" +:+ nl).

(** Lines 166-169: one table row. *)
Definition report_row (rt : Runtime) (i : nat) (repo : json) : result string :=
  url_v ← py_getitem repo "url";
  url ← as_str url_v;
  match last_two (split "/" (strip is_slash url)) with
  | [owner; repo_name] =>
      let repo_name := replace ".git" "" repo_name in
      size ← py_getitem repo "size";
      size_mb ← size_mb_of rt size;
      stars ← py_getitem repo "stars";
      Ret ("| " +:+ str_of_Z (Z.of_nat i) +:+ " | `" +:+ owner +:+ "/" +:+ repo_name
           +:+ "` | " +:+ py_str rt stars +:+ " | `" +:+ size_mb +:+ "` | ["
           +:+ py_str rt url_v +:+ "](" +:+ py_str rt url_v +:+ ") |" +:+ nl)
  | _ => Raise ValueError
  end.

(** The loop of line 165: rows are appended to the file as they are
    written; a raising row leaves the rows before it. *)
Fixpoint write_rows (rt : Runtime) (i : nat) (repos : list json) (written_so_far : string)
    : result unit * string :=
  match repos with
  | [] => (Ret tt, written_so_far)
  | repo :: rest =>
      match report_row rt i repo with
      | Ret row => write_rows rt (S i) rest (written_so_far +:+ row)
      | Raise e => (Raise e, written_so_far)
      | Stalled => (Stalled, written_so_far)
      end
  end.

(** [_write_markdown_file(md_file, repos)]: the outcome and the content of
    the file afterwards. *)
Definition _write_markdown_file (rt : Runtime) (t : datetime) (repos : list json)
    : result unit * string :=
  write_rows rt 1 repos (report_header (length repos) t).

(** [re.search(r"\[(https://github.com/.+?)\]", line)]: the group of the
    leftmost match.  [lazy_to_bracket] is [.+?\]] once one character has
    been taken: it stops at the first [']'], and [.] does not cross a line
    feed. *)
Fixpoint lazy_to_bracket (s : string) : option string :=
  match s with
  | EmptyString => None
  | String c r =>
      if Ascii.eqb c "]" then Some EmptyString
      else if Ascii.eqb c LF then None
      else option_map (String c) (lazy_to_bracket r)
  end.

Fixpoint drop_prefix (p s : string) : option string :=
  match p, s with
  | EmptyString, _ => Some s
  | String a p', String b s' => if Ascii.eqb a b then drop_prefix p' s' else None
  | String _ _, EmptyString => None
  end.

(** A match starting just after a ['[']. *)
Definition match_after_bracket (s : string) : option string :=
  match drop_prefix "https://github.com/" s with
  | Some (String c r) =>
      if Ascii.eqb c LF then None
      else option_map (fun g => "https://github.com/" +:+ String c g) (lazy_to_bracket r)
  | _ => None
  end.

Fixpoint re_search_repo (line : string) : option string :=
  match line with
  | EmptyString => None
  | String c r =>
      if Ascii.eqb c "[" then
        match match_after_bracket r with
        | Some g => Some g
        | None => re_search_repo r
        end
      else re_search_repo r
  end.

(** [parse_markdown_for_repos(md_file)], given the content of the file
    ([None]: [FileNotFoundError]). *)
Definition parse_markdown_for_repos (md_file : option string) : list json :=
  match md_file with
  | None => []
  | Some content =>
      omap (fun line => (fun g => JDict [("url", JStr g)]) <$> re_search_repo line)
           (file_lines content)
  end.

(** The URLs of a list of repositories. *)
Definition url_of (repo : json) : option string :=
  match repo with
  | JDict d => match dict_get "url" d with Some (JStr u) => Some u | _ => None end
  | _ => None
  end.

(** Vocabulary of the statements about the report. *)

Definition no_break (c : ascii) : bool :=
  negb (Ascii.eqb c LF) && negb (Ascii.eqb c CR).

Definition no_bracket_or_break (c : ascii) : bool :=
  negb (Ascii.eqb c "[") && no_break c.

Definition plain (c : ascii) : bool :=
  no_bracket_or_break c && negb (Ascii.eqb c "]").

Definition github_prefix : string := "https://github.com/".

(** A URL the report parser reads back: [https://github.com/] followed by
    at least one character, without brackets or line breaks. *)
Definition roundtrip_url (u : string) : bool :=
  match drop_prefix github_prefix u with
  | Some (String _ _) => all_chars plain u
  | _ => false
  end.

(** A repository the report writer accepts and the parser reads back. *)
Definition report_ready (rt : Runtime) (repo : json) (u : string) : Prop :=
  py_getitem repo "url" = Ret (JStr u) /\
  roundtrip_url u = true /\
  (exists stars, py_getitem repo "stars" = Ret (JInt stars)) /\
  (exists size, py_getitem repo "size" = Ret (JInt size) /\
                all_chars no_bracket_or_break (format_mb_2f rt size) = true).

Definition url_entry (u : string) : json := JDict [("url", JStr u)].

(** The text of lines, each followed by a line feed. *)
Definition unlines (ls : list string) : string :=
  foldr (fun l acc => l +:+ nl +:+ acc) "" ls.

(** The row written for a repository: a prefix without brackets, then the
    bracketed link. *)
Definition row_body (pre u : string) : string :=
  pre +:+ "[" +:+ u +:+ "](" +:+ u +:+ ") |".

(** The lines of [report_header]. *)
Definition header_lines (n_repos : nat) (t : datetime) : list string :=
  ["# Top " +:+ str_of_Z (Z.of_nat n_repos) +:+ " Kho Chứa Git (Nhỏ hơn 5.0MB)"; "";
   "*Tự động tạo lúc: " +:+ strftime t +:+ "*";
   "*Xóa file này để buộc kịch bản lấy lại dữ liệu mới từ API.*"; "";
   "| Hạng | Tên Kho Chứa | ⭐ Sao | Kích thước | URL |";
   "|------|--------------|-------|------------|-----|"].

End Report.

(** ** Ranking pipeline *)

Module Rank.

(** [list.sort] is a stable sort; with [reverse=True] the list is reversed,
    sorted in ascending order, and reversed again, which keeps the original
    order of equal keys. *)
Fixpoint insert_by {A} (le : A -> A -> bool) (x : A) (l : list A) : list A :=
  match l with
  | [] => [x]
  | y :: r => if le x y then x :: l else y :: insert_by le x r
  end.

Definition sort_stable {A} (le : A -> A -> bool) (l : list A) : list A :=
  foldr (insert_by le) [] l.

Definition sort_reverse {A} (le : A -> A -> bool) (l : list A) : list A :=
  reverse (sort_stable le (reverse l)).

(** Keys that compare with each other: integers (with booleans), strings. *)
Definition int_key (v : json) : option Z :=
  match v with
  | JInt n => Some n
  | JBool b => Some (Z.b2z b)
  | _ => None
  end.

Definition str_key (v : json) : option string :=
  match v with
  | JStr s => Some s
  | _ => None
  end.

Definition on_key {K A} (le : K -> K -> bool) (a b : K * A) : bool := le a.1 b.1.

(** [l.sort(key=key, reverse=True)]: the keys are computed first; two or
    more keys that do not compare raise [TypeError]. *)
Definition list_sort_reverse (key : json -> result json) (l : list json)
    : result (list json) :=
  keys ← mapM key l;
  match mapM int_key keys, mapM str_key keys with
  | Some ks, _ => Ret (sort_reverse (on_key Z.leb) (zip ks l)).*2
  | None, Some ks => Ret (sort_reverse (on_key String.leb) (zip ks l)).*2
  | None, None => if bool_decide (length l <= 1)%nat then Ret l else Raise TypeError
  end.

(** Lines 64-65. *)
Definition rank_select (config : Config) (all_repos_data : list json)
    : result (list json) :=
  sorted ← list_sort_reverse (fun x => py_getitem x "stars") all_repos_data;
  Ret (slice_to (TOP_N_REPOS config) sorted).

(** The star count of a metadata record. *)
Definition stars_of (x : json) : Z :=
  match x with
  | JDict d => default 0%Z (dict_get "stars" d ≫= int_key)
  | _ => 0%Z
  end.

Definition has_int_stars (x : json) : Prop :=
  exists n, py_getitem x "stars" = Ret (JInt n).

Definition le_stars (a b : json) : bool := (stars_of a <=? stars_of b)%Z.

Definition _load_cache (w : World) : result (gmap string json) :=
  match cache_file w with
  | None => Ret ∅
  | Some None => Raise ValueError
  | Some (Some cache) => Ret cache
  end.

(** Line 51. *)
Definition read_urls (rt : Runtime) (content : string) : list string :=
  set_order rt
    (filter (fun line => contains "github.com" line = true)
            (strip is_space <$> file_lines content)).

(** Lines 56-60. *)
Fixpoint collect (urls : list string) (cache : gmap string json) (config : Config)
    (n : Net) (all_repos_data : list json)
    : result (list json) * (gmap string json * Net) :=
  match urls with
  | [] => (Ret all_repos_data, (cache, n))
  | url :: rest =>
      match Fetch._fetch_repo_metadata url cache config n with
      | (Ret repo_info, (cache', n')) =>
          collect rest cache' config n'
            (if py_truthy repo_info then all_repos_data ++ [repo_info]
             else all_repos_data)
      | (Raise e, st) => (Raise e, st)
      | (Stalled, st) => (Stalled, st)
      end
  end.

Definition set_net (n : Net) (w : World) : World :=
  {| repo_list_file := repo_list_file w; report_file := report_file w;
     cache_file := cache_file w; net := n; today := today w; shell := shell w |}.

(** [_save_cache(cache_file, cache_data)] *)
Definition _save_cache (c : gmap string json) (w : World) : World :=
  {| repo_list_file := repo_list_file w; report_file := report_file w;
     cache_file := Some (Some c); net := net w; today := today w; shell := shell w |}.

Definition set_report_file (content : string) (w : World) : World :=
  {| repo_list_file := repo_list_file w; report_file := Some content;
     cache_file := cache_file w; net := net w; today := today w; shell := shell w |}.

Definition set_shell (sh : Shell) (w : World) : World :=
  {| repo_list_file := repo_list_file w; report_file := report_file w;
     cache_file := cache_file w; net := net w; today := today w; shell := sh |}.

(** [get_top_repos_from_api(config)] *)
Definition get_top_repos_from_api (rt : Runtime) (config : Config) (w : World)
    : result (list json) * World :=
  match _load_cache w with
  | Raise e => (Raise e, w)
  | Stalled => (Stalled, w)
  | Ret cache =>
      match repo_list_file w with
      | None => (Raise (SystemExit 1), w)
      | Some content =>
          match collect (read_urls rt content) cache config (net w) [] with
          | (Raise e, (_, n')) => (Raise e, set_net n' w)
          | (Stalled, (_, n')) => (Stalled, set_net n' w)
          | (Ret all_repos_data, (cache', n')) =>
              let w1 := _save_cache cache' (set_net n' w) in
              match rank_select config all_repos_data with
              | Raise e => (Raise e, w1)
              | Stalled => (Stalled, w1)
              | Ret top_repos =>
                  let '(r, content') :=
                    Report._write_markdown_file rt (today w) top_repos in
                  (r ≫= (fun _ => Ret top_repos), set_report_file content' w1)
              end
          end
      end
  end.

End Rank.

(** ** Clone/update executor *)

Module Sync.

Definition not_slash (c : ascii) : bool := negb (is_slash c).

(** [os.path.join(a, b)] (POSIX). *)
Definition path_join (a b : string) : string :=
  match b with
  | String "/" _ => b
  | _ =>
      match rev (list_ascii_of_string a) with
      | [] => b
      | c :: _ => if is_slash c then a +:+ b else a +:+ "/" +:+ b
      end
  end.

(** Lines 81-83. *)
Definition target_dir_of (config : Config) (url : string) : result string :=
  let parts := split "/" (strip is_slash url) in
  owner ← index_last_but_one parts;
  last ← index_last parts;
  let repo_name := replace ".git" "" last in
  Ret (path_join (CLONE_DIR config) (lower (owner +:+ "__" +:+ repo_name))).

Definition pull_command (target_dir : string) : list string :=
  ["git"; "-C"; target_dir; "pull"].

Definition clone_command (url target_dir : string) : list string :=
  ["git"; "clone"; url; target_dir].

(** [subprocess.run(command, check=True, capture_output=True)]; a clone
    that completes leaves [creates] as a directory. *)
Definition run (command : list string) (creates : gset string) (sh : Shell)
    : result unit * Shell :=
  match outcomes sh with
  | [] => (Stalled, sh)
  | ExitZero :: rest =>
      (Ret tt, {| dirs := dirs sh ∪ creates; outcomes := rest;
                  commands := commands sh ++ [command] |})
  | ExitNonZero _ :: rest =>
      (Raise CalledProcessError,
       {| dirs := dirs sh; outcomes := rest;
          commands := commands sh ++ [command] |})
  end.

(** The [try] block of lines 81-91. *)
Definition sync_attempt (config : Config) (repo : json) (sh : Shell)
    : result unit * Shell :=
  match (url_v ← py_getitem repo "url";
         url ← Report.as_str url_v;
         target_dir ← target_dir_of config url;
         Ret (url, target_dir)) with
  | Ret (url, target_dir) =>
      if bool_decide (target_dir ∈ dirs sh)
      then run (pull_command target_dir) ∅ sh
      else run (clone_command url target_dir) {[target_dir]} sh
  | Raise e => (Raise e, sh)
  | Stalled => (Stalled, sh)
  end.

(** [except (subprocess.CalledProcessError, IndexError, KeyError)] *)
Definition except_sync (o : result unit * Shell) : result unit * Shell :=
  match o with
  | (Raise CalledProcessError, sh) => (Ret tt, sh)
  | (Raise IndexError, sh) => (Ret tt, sh)
  | (Raise KeyError, sh) => (Ret tt, sh)
  | _ => o
  end.

Definition sync_one (config : Config) (repo : json) (sh : Shell)
    : result unit * Shell :=
  except_sync (sync_attempt config repo sh).

Fixpoint sync_all (config : Config) (repos : list json) (sh : Shell)
    : result unit * Shell :=
  match repos with
  | [] => (Ret tt, sh)
  | repo :: rest =>
      match sync_one config repo sh with
      | (Ret _, sh') => sync_all config rest sh'
      | o => o
      end
  end.

(** [os.makedirs(path, exist_ok=True)] *)
Definition makedirs (path : string) (sh : Shell) : Shell :=
  {| dirs := dirs sh ∪ {[path]}; outcomes := outcomes sh; commands := commands sh |}.

(** [clone_or_update_repos(config, repos_to_process)] *)
Definition clone_or_update_repos (config : Config) (repos_to_process : list json)
    (sh : Shell) : result unit * Shell :=
  match repos_to_process with
  | [] => (Ret tt, sh)
  | _ => sync_all config repos_to_process (makedirs (CLONE_DIR config) sh)
  end.

End Sync.

(** ** Entry point *)

Definition main (rt : Runtime) (environ_GITHUB_TOKEN : option string) (w : World)
    : result unit * World :=
  let config := Config_init environ_GITHUB_TOKEN in
  let finish repos w :=
    let '(r, sh) := Sync.clone_or_update_repos config repos (shell w) in
    (r, Rank.set_shell sh w) in
  match Report.parse_markdown_for_repos (report_file w) with
  | [] =>
      match Rank.get_top_repos_from_api rt config w with
      | (Ret repos_to_process, w') => finish repos_to_process w'
      | (Raise e, w') => (Raise e, w')
      | (Stalled, w') => (Stalled, w')
      end
  | repos_to_process => finish repos_to_process w
  end.

(** The exit status of the process: an uncaught exception other than
    [SystemExit] ends it with status 1; a stalled run does not end. *)
Definition exit_status {A} (r : result A) : option Z :=
  match r with
  | Ret _ => Some 0%Z
  | Raise (SystemExit code) => Some code
  | Raise _ => Some 1%Z
  | Stalled => None
  end.

(** ** Sample data for the examples *)

Module Samples.

(** Two decimals of [n / 1024], rounded half to even; this is what Python
    prints for sizes below [2^53]. *)
Definition format_mb_2f_exact (n : Z) : string :=
  let a := (Z.abs n * 100)%Z in
  let q := (a / 1024)%Z in
  let r := (a mod 1024)%Z in
  let q' := if (512 <? r)%Z || ((r =? 512)%Z && Z.odd q) then (q + 1)%Z else q in
  (if (n <? 0)%Z then "-" else "") +:+ str_of_Z (q' / 100) +:+ "."
  +:+ Report.pad2 (Z.to_nat (q' mod 100)).

(** The samples hold no nested dictionary and no repeated line; the set
    order is the order of first occurrence. *)
Definition rt : Runtime := {|
  format_mb_2f := format_mb_2f_exact;
  repr_dict := fun _ => "{...}";
  set_order := remove_dups
|}.

Definition config : Config := Config_init None.

Definition t0 : datetime :=
  {| year := 2025; month := 3; day := 9; hour := 7; minute := 5; second := 0 |}.

Definition url_A : string := "https://github.com/o/A".
Definition url_B : string := "https://github.com/o/B".
Definition url_C : string := "https://github.com/o/C".

Definition body (stars size : Z) : list (string * json) :=
  [("stargazers_count", JInt stars); ("size", JInt size)].

Definition ok (stars size : Z) : Response :=
  {| status_code := 200; headers := []; json_body := Some (JDict (body stars size)) |}.

Definition not_found : Response :=
  {| status_code := 404; headers := []; json_body := None |}.

Definition too_many_requests : Response :=
  {| status_code := 429; headers := [("X-RateLimit-Reset", "1010")];
     json_body := None |}.


(** A successful answer without the two fields. *)
Definition ok_empty : Response :=
  {| status_code := 200; headers := []; json_body := Some (JDict []) |}.

Definition net_of (replies : list Reply) : Net :=
  {| pending := replies; now := 1000; trace := [] |}.

Definition record (url : string) (stars size : Z) : json :=
  Fetch.metadata_record url (JInt stars) (JInt size).


Definition shell_of (ds : gset string) (os : list RunOutcome) : Shell :=
  {| dirs := ds; outcomes := os; commands := [] |}.

(** A first run: no report, no cache; A is not found, B fits, C is too
    large. *)
Definition first_run : World := {|
  repo_list_file := Some (url_A +:+ nl +:+ url_B +:+ nl +:+ url_C +:+ nl);
  report_file := None;
  cache_file := None;
  net := net_of [Answer not_found; Answer (ok 300 100); Answer (ok 500 8000)];
  today := t0;
  shell := shell_of ∅ [ExitZero]
|}.


End Samples.

(** * Verified properties *)

Import Fetch Report Rank Sync.

(** Vocabulary of the further properties. *)

(** A value the size filter lets through: a record whose ['size'] does not
    exceed the configured maximum. *)
Definition within_limit (config : Config) (v : json) : Prop :=
  exists d size, v = JDict d /\ dict_get "size" d = Some size /\
    py_gt_int size (MAX_REPO_SIZE_KB config) = Ret false.


(** A reply that makes the fetcher wait and retry. *)
Definition retried (reply : Reply) : Prop :=
  exists response, reply = Answer response /\
    Fetch.excluded_status response = false /\
    Fetch.rate_limited response = Ret true.


(** What a collected record satisfies with respect to the cache: it passed
    the size filter and is the entry of some URL. *)
Definition collected_ok (config : Config) (cache : gmap string json) (v : json) : Prop :=
  within_limit config v /\ exists url, cache !! url = Some v.

(** What a run may add to the network trace for the listed [urls]: a sleep
    of at least one second, or the API request of one of them. *)
Definition sleeps_or_requests (config : Config) (urls : list string) (e : Event) : Prop :=
  (exists wait_time, e = ESleep wait_time /\ (1 <= wait_time)%Q) \/
  (exists url, url ∈ urls /\ e = Fetch.request_of url config).

(** ** Metadata fetcher *)

(** Both runs end with result [r], write [w] and the request sent. *)
Ltac same_run r w :=
  eexists _, w, _; split_and!; [reflexivity | reflexivity | by exists []].

Section FetchFacts.
Context (repo_url : string) (config : Config).

Lemma fetch_from_hit replies clock events (cache : gmap string json) :
  cache_has_size repo_url cache = Ret true ->
  fetch_from replies clock events repo_url cache config =
    (cached_answer repo_url cache config,
     (cache, {| pending := replies; now := clock; trace := events |})).
Proof. intros H. destruct replies; simpl; rewrite H; reflexivity. Qed.

Lemma fetch_from_raise replies clock events (cache : gmap string json) e :
  cache_has_size repo_url cache = Raise e ->
  fetch_from replies clock events repo_url cache config =
    (Raise e, (cache, {| pending := replies; now := clock; trace := events |})).
Proof. intros H. destruct replies; simpl; rewrite H; reflexivity. Qed.

Lemma fetch_from_failed rest clock events (cache : gmap string json) :
  cache_has_size repo_url cache = Ret false ->
  fetch_from (ConnectionFailed :: rest) clock events repo_url cache config =
    (Ret JNull, (cache, {| pending := rest; now := clock;
                           trace := events ++ [request_of repo_url config] |})).
Proof. intros H. simpl. rewrite H. reflexivity. Qed.

Lemma fetch_from_excluded response rest clock events (cache : gmap string json) :
  cache_has_size repo_url cache = Ret false ->
  excluded_status response = true ->
  fetch_from (Answer response :: rest) clock events repo_url cache config =
    (Ret JNull, (cache, {| pending := rest; now := clock;
                           trace := events ++ [request_of repo_url config] |})).
Proof. intros H Hx. simpl. rewrite H, Hx. reflexivity. Qed.

Lemma fetch_from_stored response rest clock events (cache : gmap string json) :
  cache_has_size repo_url cache = Ret false ->
  excluded_status response = false ->
  rate_limited response = Ret false ->
  fetch_from (Answer response :: rest) clock events repo_url cache config =
    except_RequestException
      (let '(r, cache') := store_fetched repo_url cache config response in
       (r, (cache', {| pending := rest; now := clock;
                       trace := events ++ [request_of repo_url config] |}))).
Proof. intros H Hx Hr. simpl. rewrite H, Hx, Hr. reflexivity. Qed.

Lemma fetch_from_retry response rest clock events (cache : gmap string json) reset_time :
  cache_has_size repo_url cache = Ret false ->
  excluded_status response = false ->
  rate_limited response = Ret true ->
  reset_time_of response clock = Ret reset_time ->
  fetch_from (Answer response :: rest) clock events repo_url cache config =
    except_RequestException
      (fetch_from rest (clock + wait_time_of reset_time clock)
         ((events ++ [request_of repo_url config])
            ++ [ESleep (wait_time_of reset_time clock)])
         repo_url cache config).
Proof. intros H Hx Hr Ht. simpl. rewrite H, Hx, Hr, Ht. reflexivity. Qed.


Lemma except_RequestException_never {S} (o : result json * S) :
  (except_RequestException o).1 <> Raise RequestException.
Proof. destruct o as [[a|[]|] st]; simpl; congruence. Qed.

Lemma except_RequestException_id {S} (o : result json * S) :
  o.1 <> Raise RequestException -> except_RequestException o = o.
Proof. destruct o as [[a|[]|] st]; simpl; congruence. Qed.

Lemma cache_has_size_raises (cache : gmap string json) e :
  cache_has_size repo_url cache = Raise e -> e = TypeError.
Proof.
  unfold cache_has_size. destruct (cache !! repo_url) as [[]|]; simpl; congruence.
Qed.

Lemma cached_answer_raises (cache : gmap string json) e :
  cached_answer repo_url cache config = Raise e -> e <> RequestException.
Proof.
  unfold cached_answer.
  destruct (cache !! repo_url) as [[| | | |d]|]; simpl; try congruence.
  destruct (dict_get "size" d) as [[]|]; simpl; try congruence;
    repeat case_match; congruence.
Qed.

(** A call never lets a [RequestException] escape. *)
Lemma fetch_from_catches replies clock events (cache : gmap string json) :
  (fetch_from replies clock events repo_url cache config).1 <> Raise RequestException.
Proof.
  destruct (cache_has_size repo_url cache) as [[]|e|] eqn:E.
  - rewrite fetch_from_hit by done. simpl.
    intros H. by apply cached_answer_raises in H.
  - destruct replies; simpl; rewrite E; [simpl; congruence|].
    apply except_RequestException_never.
  - rewrite (fetch_from_raise _ _ _ _ _ E). simpl.
    apply cache_has_size_raises in E. congruence.
  - destruct replies; simpl; rewrite E; simpl; congruence.
Qed.

Lemma store_fetched_ok (cache : gmap string json) response data size :
  succeeds response data ->
  fetched_size data = JInt size ->
  store_fetched repo_url cache config response =
    if (MAX_REPO_SIZE_KB config <? size)%Z
    then (Ret JNull, <[repo_url := JNull]> cache)
    else let record := metadata_record repo_url (fetched_stars data) (JInt size) in
         (Ret record, <[repo_url := record]> cache).
Proof.
  intros (_ & _ & Hst & Hbody) Hsize. unfold store_fetched.
  rewrite Hst, Hbody. simpl. fold (fetched_size data). rewrite Hsize. simpl.
  destruct (MAX_REPO_SIZE_KB config <? size)%Z; reflexivity.
Qed.

Lemma fetch_from_success_within (cache : gmap string json) response data size
    rest clock events :
  cache_has_size repo_url cache = Ret false ->
  succeeds response data ->
  fetched_size data = JInt size ->
  (size <= MAX_REPO_SIZE_KB config)%Z ->
  let record := metadata_record repo_url (fetched_stars data) (JInt size) in
  fetch_from (Answer response :: rest) clock events repo_url cache config =
    (Ret record,
     (<[repo_url := record]> cache,
      {| pending := rest; now := clock;
         trace := events ++ [request_of repo_url config] |})).
Proof.
  intros Hmiss Hok Hsize Hle record.
  pose proof Hok as (Hx & Hr & _).
  rewrite fetch_from_stored by done.
  rewrite (store_fetched_ok _ _ _ _ Hok Hsize).
  by replace (MAX_REPO_SIZE_KB config <? size)%Z with false by lia.
Qed.

(** C2.  For a URL the cache does not decide, a successful API answer is
    filtered by size: when the fetched size exceeds [MAX_REPO_SIZE_KB] the
    fetcher stores a tombstone ([None]) under the URL and returns [None];
    otherwise it builds the record [{url, stars, size}], stores it under the
    URL and returns it.  One request is sent and one reply consumed. *)
Theorem fetch_success_stores (cache : gmap string json) response data size rest clock events :
  cache_has_size repo_url cache = Ret false ->
  succeeds response data ->
  fetched_size data = JInt size ->
  let net := {| pending := Answer response :: rest; now := clock; trace := events |} in
  let net' := {| pending := rest; now := clock;
                 trace := events ++ [request_of repo_url config] |} in
  let record := metadata_record repo_url (fetched_stars data) (JInt size) in
  _fetch_repo_metadata repo_url cache config net =
    if (MAX_REPO_SIZE_KB config <? size)%Z
    then (Ret JNull, (<[repo_url := JNull]> cache, net'))
    else (Ret record, (<[repo_url := record]> cache, net')).
Proof.
  intros Hmiss Hok Hsize net net' record.
  unfold _fetch_repo_metadata, net. cbn [pending now trace].
  pose proof Hok as (Hx & Hr & _).
  rewrite fetch_from_stored by done.
  rewrite (store_fetched_ok _ _ _ _ Hok Hsize).
  destruct (MAX_REPO_SIZE_KB config <? size)%Z; reflexivity.
Qed.

(** Cache hit within the size limit: the cached record is returned; no
    request is sent, the cache and the network are as before. *)
Lemma cached_entry_returned (cache : gmap string json) d size net :
  cache !! repo_url = Some (JDict d) ->
  dict_get "size" d = Some (JInt size) ->
  (size <= MAX_REPO_SIZE_KB config)%Z ->
  _fetch_repo_metadata repo_url cache config net = (Ret (JDict d), (cache, net)).
Proof.
  intros Hc Hs Hle. unfold _fetch_repo_metadata.
  rewrite fetch_from_hit; [|unfold cache_has_size; rewrite Hc; simpl; by rewrite Hs].
  unfold cached_answer. rewrite Hc. simpl. rewrite Hs. simpl.
  replace (MAX_REPO_SIZE_KB config <? size)%Z with false by lia. by destruct net.
Qed.

(** Cache hit over the size limit: [None] is returned; no request is sent,
    the cache and the network are as before. *)
Lemma cached_oversize_skipped (cache : gmap string json) d size net :
  cache !! repo_url = Some (JDict d) ->
  dict_get "size" d = Some (JInt size) ->
  (MAX_REPO_SIZE_KB config < size)%Z ->
  _fetch_repo_metadata repo_url cache config net = (Ret JNull, (cache, net)).
Proof.
  intros Hc Hs Hlt. unfold _fetch_repo_metadata.
  rewrite fetch_from_hit; [|unfold cache_has_size; rewrite Hc; simpl; by rewrite Hs].
  unfold cached_answer. rewrite Hc. simpl. rewrite Hs. simpl.
  replace (MAX_REPO_SIZE_KB config <? size)%Z with true by lia. by destruct net.
Qed.

(** A tombstone: the membership test of line 111 is applied to [None] and
    raises [TypeError]; no request is sent, the cache and the network are as
    before. *)
Lemma cached_tombstone_raises (cache : gmap string json) net :
  cache !! repo_url = Some JNull ->
  _fetch_repo_metadata repo_url cache config net = (Raise TypeError, (cache, net)).
Proof.
  intros Hc. unfold _fetch_repo_metadata.
  rewrite (fetch_from_raise _ _ _ _ TypeError); [by destruct net|].
  unfold cache_has_size. by rewrite Hc.
Qed.

(** C4.  A 404, 403 or 451 answer, and a transport-level failure
    ([requests.get] raising, an HTTP error status or an undecodable body on an
    answer without rate-limit signal), make the fetcher return [None] and
    leave the cache as it was: no tombstone and no record is written. *)
Theorem fetch_failure_keeps_cache (cache : gmap string json) reply rest clock events :
  cache_has_size repo_url cache = Ret false ->
  (exists response, reply = Answer response /\ status_code response ∈ [404; 403; 451]%Z)
    \/ transport_failure reply ->
  _fetch_repo_metadata repo_url cache config
      {| pending := reply :: rest; now := clock; trace := events |} =
    (Ret JNull, (cache, {| pending := rest; now := clock;
                           trace := events ++ [request_of repo_url config] |})).
Proof.
  intros Hmiss [(response & -> & Hst)|[->|(response & -> & Hx & Hr & Hbad)]];
    unfold _fetch_repo_metadata; cbn [pending now trace].
  - apply fetch_from_excluded; [done|]. unfold excluded_status. by apply bool_decide_eq_true.
  - by apply fetch_from_failed.
  - rewrite fetch_from_stored by done. unfold store_fetched.
    destruct Hbad as [->| ->]; [reflexivity|].
    by destruct (_ && _).
Qed.




(** C8, amended.  A successful answer whose body lacks the star-count or the
    size field is not a failure: the missing field counts as [0], and the
    record is built, cached and returned as for any answer within the size
    limit. *)
Theorem missing_fields_default_to_zero (cache : gmap string json) response data size
    rest clock events :
  cache_has_size repo_url cache = Ret false ->
  succeeds response data ->
  dict_get "size" data = None \/ dict_get "stargazers_count" data = None ->
  fetched_size data = JInt size ->
  (size <= MAX_REPO_SIZE_KB config)%Z ->
  let record := metadata_record repo_url (fetched_stars data) (JInt size) in
  _fetch_repo_metadata repo_url cache config
      {| pending := Answer response :: rest; now := clock; trace := events |} =
    (Ret record,
     (<[repo_url := record]> cache,
      {| pending := rest; now := clock;
         trace := events ++ [request_of repo_url config] |})) /\
  (dict_get "size" data = None -> size = 0%Z) /\
  (dict_get "stargazers_count" data = None -> fetched_stars data = JInt 0).
Proof.
  intros Hmiss Hok _ Hsize Hle record. split; [|split].
  - unfold _fetch_repo_metadata. cbn [pending now trace].
    by rewrite (fetch_from_success_within _ _ data size).
  - intros E. unfold fetched_size in Hsize. rewrite E in Hsize. simpl in Hsize. congruence.
  - intros E. unfold fetched_stars. by rewrite E.
Qed.

Lemma store_fetched_written response :
  exists r w, forall cache : gmap string json,
    store_fetched repo_url cache config response = (r, written repo_url w cache).
Proof.
  unfold store_fetched.
  destruct (_ && _); [by exists (Raise RequestException), None|].
  destruct (json_body response) as [data|]; [|by exists (Raise RequestException), None].
  destruct (py_get data "size" (JInt 0)) as [sz|e|]; [|by exists (Raise e), None|by exists Stalled, None].
  destruct (py_gt_int sz _) as [[]|e|];
    [by exists (Ret JNull), (Some JNull)| |by exists (Raise e), None|by exists Stalled, None].
  destruct (py_get data "stargazers_count" (JInt 0)) as [st|e|];
    [|by exists (Raise e), None|by exists Stalled, None].
  by eexists (Ret _), (Some _).
Qed.

(** Two caches that both miss [repo_url] see the same run: same result, same
    network activity, same write. *)
Lemma fetch_from_miss_uniform (c1 c2 : gmap string json) replies :
  cache_has_size repo_url c1 = Ret false ->
  cache_has_size repo_url c2 = Ret false ->
  forall clock events, exists r w net',
    fetch_from replies clock events repo_url c1 config = (r, (written repo_url w c1, net')) /\
    fetch_from replies clock events repo_url c2 config = (r, (written repo_url w c2, net')) /\
    exists evs, trace net' = events ++ request_of repo_url config :: evs.
Proof.
  intros H1 H2.
  induction replies as [|reply rest IH]; intros clock events.
  - simpl. rewrite H1, H2. by same_run (@Stalled json) (@None json).
  - destruct reply as [|response].
    { rewrite !fetch_from_failed by done. by same_run (Ret JNull) (@None json). }
    destruct (excluded_status response) eqn:Hx.
    { rewrite !fetch_from_excluded by done. by same_run (Ret JNull) (@None json). }
    destruct (rate_limited response) as [[]|e|] eqn:Hr.
    + destruct (reset_time_of response clock) as [reset_time|e|] eqn:Ht.
      * rewrite !(fetch_from_retry _ _ _ _ _ reset_time) by done.
        rewrite !except_RequestException_id by apply fetch_from_catches.
        destruct (IH (clock + wait_time_of reset_time clock)%Q
                    ((events ++ [request_of repo_url config])
                       ++ [ESleep (wait_time_of reset_time clock)]))
          as (r & w & net' & E1 & E2 & evs & Hevs).
        exists r, w, net'. split; [done|split; [done|]].
        exists (ESleep (wait_time_of reset_time clock) :: request_of repo_url config :: evs).
        rewrite Hevs. by rewrite <- !app_assoc.
      * simpl. rewrite H1, H2, Hx, Hr, Ht. simpl.
        destruct e; by same_run (@Raise json) (@None json).
      * simpl. rewrite H1, H2, Hx, Hr, Ht. simpl. by same_run (@Stalled json) (@None json).
    + rewrite !fetch_from_stored by done.
      destruct (store_fetched_written response) as (r & w & Hw).
      rewrite !Hw.
      destruct r as [a|[]|]; simpl; by same_run (@Ret json) w.
    + simpl. rewrite H1, H2, Hx, Hr. simpl. destruct e; by same_run (@Raise json) (@None json).
    + simpl. rewrite H1, H2, Hx, Hr. simpl. by same_run (@Stalled json) (@None json).
Qed.


End FetchFacts.

(** ** Ranking *)

Section SortFacts.
Context {A : Type} (f : A -> Z).

Let le (a b : A) : bool := (f a <=? f b)%Z.

Lemma insert_by_perm x l : insert_by le x l ≡ₚ x :: l.
Proof.
  induction l as [|y l IH]; simpl; [done|].
  destruct (le x y); [done|]. rewrite IH. apply Permutation_swap.
Qed.

Lemma sort_stable_perm l : sort_stable le l ≡ₚ l.
Proof.
  induction l as [|x l IH]; simpl; [done|].
  rewrite insert_by_perm. by rewrite IH.
Qed.

Lemma insert_by_sorted x l :
  StronglySorted (fun a b => (f a <= f b)%Z) l ->
  StronglySorted (fun a b => (f a <= f b)%Z) (insert_by le x l).
Proof.
  induction 1 as [|y l Hl IH Hy]; simpl.
  - repeat constructor.
  - unfold le at 1. destruct (Z.leb_spec (f x) (f y)) as [Hxy|Hxy].
    + constructor; [by constructor|]. constructor; [done|].
      eapply Forall_impl; [exact Hy|]. simpl. lia.
    + constructor; [done|]. rewrite insert_by_perm. constructor; [lia|done].
Qed.

Lemma sort_stable_sorted l :
  StronglySorted (fun a b => (f a <= f b)%Z) (sort_stable le l).
Proof.
  induction l as [|x l IH]; simpl; [constructor|]. by apply insert_by_sorted.
Qed.

(** Insertion passes only over strictly smaller keys. *)
Lemma insert_by_filter k x l :
  filter (fun a => f a = k) (insert_by le x l) = filter (fun a => f a = k) (x :: l).
Proof.
  induction l as [|y l IH]; simpl; [done|].
  unfold le at 1. destruct (Z.leb_spec (f x) (f y)) as [Hxy|Hxy]; [done|].
  rewrite !filter_cons in *. rewrite IH.
  destruct (decide (f y = k)), (decide (f x = k)); try done. lia.
Qed.

Lemma sort_stable_filter k l :
  filter (fun a => f a = k) (sort_stable le l) = filter (fun a => f a = k) l.
Proof.
  induction l as [|x l IH]; simpl; [done|].
  rewrite insert_by_filter, !filter_cons. by rewrite IH.
Qed.

Lemma sort_reverse_perm l : sort_reverse le l ≡ₚ l.
Proof.
  unfold sort_reverse. by rewrite reverse_Permutation, sort_stable_perm, reverse_Permutation.
Qed.

Lemma StronglySorted_reverse (R : relation A) l :
  StronglySorted R l -> StronglySorted (flip R) (reverse l).
Proof.
  induction 1 as [|x l Hl IH Hx]; [rewrite reverse_nil; constructor|].
  rewrite reverse_cons. apply StronglySorted_app_2; [|done|repeat constructor].
  intros a b Ha Hb. apply list_elem_of_singleton in Hb as ->.
  rewrite elem_of_reverse in Ha. unfold flip.
  rewrite Forall_forall in Hx. by apply Hx.
Qed.

Lemma sort_reverse_sorted l :
  StronglySorted (fun a b => (f b <= f a)%Z) (sort_reverse le l).
Proof. apply (StronglySorted_reverse _ _ (sort_stable_sorted _)). Qed.

Lemma sort_reverse_filter k l :
  filter (fun a => f a = k) (sort_reverse le l) = filter (fun a => f a = k) l.
Proof.
  unfold sort_reverse.
  by rewrite filter_reverse, sort_stable_filter, filter_reverse, reverse_involutive.
Qed.

Lemma insert_by_fmap {B} (g : A -> B) (le' : B -> B -> bool) x l :
  (forall a b, le' (g a) (g b) = le a b) ->
  insert_by le' (g x) (g <$> l) = g <$> insert_by le x l.
Proof.
  intros Hle. induction l as [|y l IH]; simpl; [done|].
  rewrite Hle. destruct (le x y); [done|]. simpl. f_equal. apply IH.
Qed.

Lemma sort_stable_fmap {B} (g : A -> B) (le' : B -> B -> bool) l :
  (forall a b, le' (g a) (g b) = le a b) ->
  sort_stable le' (g <$> l) = g <$> sort_stable le l.
Proof.
  intros Hle. induction l as [|x l IH]; [done|].
  rewrite fmap_cons. cbn [sort_stable foldr].
  change (foldr (insert_by le') [] (g <$> l)) with (sort_stable le' (g <$> l)).
  rewrite IH. by apply insert_by_fmap.
Qed.

Lemma sort_reverse_fmap {B} (g : A -> B) (le' : B -> B -> bool) l :
  (forall a b, le' (g a) (g b) = le a b) ->
  sort_reverse le' (g <$> l) = g <$> sort_reverse le l.
Proof.
  intros Hle. unfold sort_reverse.
  by rewrite <- fmap_reverse, (sort_stable_fmap _ _ _ Hle), fmap_reverse.
Qed.

End SortFacts.

Section RankFacts.

Lemma stars_of_int x n : py_getitem x "stars" = Ret (JInt n) -> stars_of x = n.
Proof.
  destruct x as [| | | |d]; simpl; try done.
  destruct (dict_get "stars" d) as [v|]; [|done]. by intros [= ->].
Qed.

Lemma keys_of_int_stars l :
  Forall has_int_stars l ->
  mapM (fun x => py_getitem x "stars") l = Ret ((fun x => JInt (stars_of x)) <$> l).
Proof.
  induction 1 as [|x l [n Hx] _ IH]; [done|].
  simpl. rewrite Hx, IH. simpl. by rewrite (stars_of_int _ _ Hx).
Qed.

Lemma int_keys_of_stars (l : list json) :
  mapM int_key ((fun x => JInt (stars_of x)) <$> l) = Some (stars_of <$> l).
Proof.
  rewrite (list_fmap_compose stars_of JInt). by apply mapM_fmap_Some.
Qed.

Lemma zip_stars (l : list json) :
  zip (stars_of <$> l) l = (fun x => (stars_of x, x)) <$> l.
Proof. induction l as [|x l IH]; [done|]. simpl. f_equal. apply IH. Qed.

Lemma list_sort_reverse_int_stars l :
  Forall has_int_stars l ->
  list_sort_reverse (fun x => py_getitem x "stars") l = Ret (sort_reverse le_stars l).
Proof.
  intros Hl. unfold list_sort_reverse. rewrite (keys_of_int_stars _ Hl). simpl.
  rewrite int_keys_of_stars, zip_stars.
  rewrite (sort_reverse_fmap stars_of (fun x => (stars_of x, x))) by done.
  f_equal. rewrite <- list_fmap_compose. apply list_fmap_id.
Qed.

Lemma slice_to_take {A} (n : Z) (l : list A) :
  (0 <= n)%Z -> slice_to n l = take (Z.to_nat n) l.
Proof. intros Hn. unfold slice_to. by replace (0 <=? n)%Z with true by lia. Qed.

Lemma prefix_filter {A} (P : A -> Prop) `{!forall x, Decision (P x)} (l k : list A) :
  l `prefix_of` k -> filter P l `prefix_of` filter P k.
Proof. intros [t ->]. rewrite filter_app. by eexists. Qed.

(** C5.  For every list of collected records (with integer star counts) and
    a non-negative top-N, sorting and truncating returns at most top-N
    records, sorted by star count in descending order, drawn from the input,
    in which records of equal star count keep the order they had in the
    input. *)
Theorem ranking_sorted_and_truncated (config : Config) (all_repos_data : list json) :
  (0 <= TOP_N_REPOS config)%Z ->
  Forall has_int_stars all_repos_data ->
  exists top_repos,
    rank_select config all_repos_data = Ret top_repos /\
    (Z.of_nat (length top_repos) <= TOP_N_REPOS config)%Z /\
    StronglySorted (fun a b => (stars_of b <= stars_of a)%Z) top_repos /\
    top_repos ⊆+ all_repos_data /\
    forall k, filter (fun x => stars_of x = k) top_repos
                `prefix_of` filter (fun x => stars_of x = k) all_repos_data.
Proof.
  intros Hn Hl. exists (take (Z.to_nat (TOP_N_REPOS config)) (sort_reverse le_stars all_repos_data)).
  split; [|split; [|split; [|split]]].
  - unfold rank_select. rewrite (list_sort_reverse_int_stars _ Hl). simpl.
    by rewrite slice_to_take.
  - rewrite length_take. lia.
  - eapply StronglySorted_app_1_l. rewrite take_drop. apply sort_reverse_sorted.
  - rewrite <- (sort_reverse_perm stars_of all_repos_data) at 2.
    apply sublist_submseteq, sublist_take.
  - intros k. rewrite <- (sort_reverse_filter stars_of k all_repos_data).
    apply prefix_filter, prefix_take.
Qed.

End RankFacts.

(** ** Report *)

Section StrFacts.

Lemma app_cons_s x (a b : string) : String x a +:+ b = String x (a +:+ b).
Proof. reflexivity. Qed.

Lemma app_nil_l_s (a : string) : "" +:+ a = a.
Proof. reflexivity. Qed.

Lemma app_assoc_s (a b c : string) : (a +:+ b) +:+ c = a +:+ (b +:+ c).
Proof. induction a as [|x a IH]; [done|]. rewrite !app_cons_s. by f_equal. Qed.

Lemma app_nil_r_s (a : string) : a +:+ "" = a.
Proof. induction a as [|x a IH]; [done|]. rewrite app_cons_s. by f_equal. Qed.



Context (p : ascii -> bool).

Lemma all_chars_app a b : all_chars p (a +:+ b) = all_chars p a && all_chars p b.
Proof.
  induction a as [|x a IH]; [done|]. rewrite app_cons_s. simpl.
  rewrite <- andb_assoc. by f_equal.
Qed.

Lemma all_chars_lstrip q s : all_chars p s = true -> all_chars p (lstrip q s) = true.
Proof.
  induction s as [|x s IH]; simpl; [done|]. intros H.
  destruct (q x); [|done]. apply IH. by apply andb_prop in H as [_ ?].
Qed.

Lemma all_chars_rstrip q s : all_chars p s = true -> all_chars p (rstrip q s) = true.
Proof.
  induction s as [|x s IH]; simpl; [done|]. intros [Hx Hs]%andb_prop.
  specialize (IH Hs). destruct (rstrip q s); [destruct (q x)|]; simpl in *; by rewrite ?Hx.
Qed.

Lemma all_chars_strip q s : all_chars p s = true -> all_chars p (strip q s) = true.
Proof. intros H. by apply all_chars_rstrip, all_chars_lstrip. Qed.

Lemma split_not_nil sep s : split sep s <> [].
Proof. induction s as [|x s IH]; simpl; [done|]. by repeat case_match. Qed.

Lemma all_chars_split sep s :
  all_chars p s = true -> Forall (fun w => all_chars p w = true) (split sep s).
Proof.
  induction s as [|x s IH]; simpl; [by repeat constructor|].
  intros [Hx Hs]%andb_prop. specialize (IH Hs).
  destruct (Ascii.eqb x sep); [by constructor|].
  destruct (split sep s) as [|w ws]; [by repeat constructor; simpl; rewrite Hx|].
  inversion IH; subst. constructor; [simpl; by rewrite Hx|done].
Qed.

Lemma replace_from_0 old new x s :
  replace_from old new 0 (String x s) =
    if String.prefix old (String x s)
    then new +:+ replace_from old new (String.length old - 1) s
    else String x (replace_from old new 0 s).
Proof. reflexivity. Qed.

Lemma all_chars_replace_from old k s :
  all_chars p s = true -> all_chars p (replace_from old "" k s) = true.
Proof.
  revert k. induction s as [|x s IH]; intros k; [done|].
  intros [Hx Hs]%andb_prop. destruct k; [|by apply IH].
  rewrite replace_from_0. destruct (String.prefix old (String x s)).
  - rewrite app_nil_l_s. by apply IH.
  - simpl. rewrite Hx. by apply IH.
Qed.

Lemma all_chars_In s c :
  all_chars p s = true -> In c (list_ascii_of_string s) -> p c = true.
Proof.
  induction s as [|x s IH]; simpl; [done|].
  intros [Hx Hs]%andb_prop [->|Hc]; auto.
Qed.

Lemma all_chars_uint (d : Decimal.uint) :
  all_chars p "0123456789" = true ->
  all_chars p (NilEmpty.string_of_uint d) = true.
Proof.
  intros H. induction d; simpl; [done|..]; rewrite IHd, andb_true_r;
    apply (all_chars_In _ _ H); simpl; tauto.
Qed.

Lemma all_chars_str_of_Z (n : Z) :
  all_chars p "0123456789-" = true -> all_chars p (str_of_Z n) = true.
Proof.
  intros H.
  assert (Hd : all_chars p "0123456789" = true).
  { change "0123456789-" with ("0123456789" +:+ "-") in H.
    rewrite all_chars_app in H. by apply andb_prop in H as [-> _]. }
  assert (Hm : p "-" = true) by (apply (all_chars_In _ _ H); simpl; tauto).
  assert (H0 : p "0" = true) by (apply (all_chars_In _ _ H); simpl; tauto).
  unfold str_of_Z, NilZero.string_of_int, NilZero.string_of_uint.
  destruct (Z.to_int n) as [d|d]; simpl; rewrite ?Hm; simpl;
    (destruct d; [by simpl; rewrite H0|by apply all_chars_uint..]).
Qed.

Lemma all_chars_pad2 (n : nat) :
  all_chars p "0123456789-" = true -> all_chars p (pad2 n) = true.
Proof.
  intros H. unfold pad2. destruct (n <? 10)%nat; rewrite ?all_chars_app;
    rewrite (all_chars_str_of_Z _ H); [|done].
  cbn [all_chars]. rewrite !andb_true_r. apply (all_chars_In _ _ H); simpl; tauto.
Qed.

Lemma all_chars_mono (q : ascii -> bool) s :
  (forall c, p c = true -> q c = true) ->
  all_chars p s = true -> all_chars q s = true.
Proof.
  intros Hpq. induction s as [|x s IH]; simpl; [done|].
  intros [Hx Hs]%andb_prop. by rewrite (Hpq _ Hx), IH.
Qed.

End StrFacts.

Section ReportFacts.

Lemma no_bracket_or_break_no_break c : no_bracket_or_break c = true -> no_break c = true.
Proof. unfold no_bracket_or_break. by intros [_ ?]%andb_prop. Qed.

Lemma plain_no_break c : plain c = true -> no_break c = true.
Proof. unfold plain. intros [? _]%andb_prop. by apply no_bracket_or_break_no_break. Qed.

Lemma lines_from_line cur l rest :
  all_chars no_break l = true ->
  lines_from cur (l +:+ nl +:+ rest) = (cur +:+ l +:+ nl) :: lines_from "" rest.
Proof.
  revert cur. induction l as [|x l IH]; intros cur H.
  - rewrite !app_nil_l_s. unfold nl at 1. rewrite app_cons_s, app_nil_l_s. by simpl.
  - simpl in H. apply andb_prop in H as [Hx Hl].
    unfold no_break in Hx. apply andb_prop in Hx as [Hlf Hcr].
    rewrite app_cons_s. simpl.
    apply negb_true_iff in Hlf, Hcr. rewrite Hlf, Hcr.
    rewrite (IH _ Hl). by rewrite app_assoc_s.
Qed.

Lemma file_lines_unlines ls :
  Forall (fun l => all_chars no_break l = true) ls ->
  file_lines (unlines ls) = (fun l => l +:+ nl) <$> ls.
Proof.
  unfold file_lines. induction 1 as [|l ls Hl _ IH]; [done|].
  simpl. rewrite (lines_from_line _ _ _ Hl), IH. by rewrite app_nil_l_s.
Qed.

Lemma unlines_app ls ks : unlines (ls ++ ks) = unlines ls +:+ unlines ks.
Proof.
  induction ls as [|l ls IH]; [done|]. simpl. by rewrite IH, !app_assoc_s.
Qed.

Lemma re_search_skip pre s :
  all_chars no_bracket_or_break pre = true ->
  re_search_repo (pre +:+ s) = re_search_repo s.
Proof.
  induction pre as [|x pre IH]; [done|]. rewrite app_cons_s. simpl.
  intros [Hx Hp]%andb_prop.
  unfold no_bracket_or_break in Hx. apply andb_prop in Hx as [Hx _].
  apply negb_true_iff in Hx. rewrite Hx. by apply IH.
Qed.

Lemma drop_prefix_app pre x : drop_prefix pre (pre +:+ x) = Some x.
Proof.
  induction pre as [|a pre IH]; [by destruct x|].
  rewrite app_cons_s. simpl. by rewrite Ascii.eqb_refl.
Qed.

Lemma drop_prefix_Some pre u x : drop_prefix pre u = Some x -> u = pre +:+ x.
Proof.
  revert u. induction pre as [|a pre IH]; intros u; [by intros [= ->]|].
  destruct u as [|b u]; simpl; [done|].
  destruct (Ascii.eqb_spec a b) as [->|]; [|done].
  intros H. rewrite app_cons_s. f_equal. by apply IH.
Qed.

Lemma lazy_to_bracket_stop r tail :
  all_chars plain r = true ->
  lazy_to_bracket (r +:+ "]" +:+ tail) = Some r.
Proof.
  induction r as [|x r IH]; [done|]. rewrite app_cons_s. simpl.
  intros [Hx Hr]%andb_prop.
  unfold plain, no_bracket_or_break, no_break in Hx.
  apply andb_prop in Hx as [[_ [Hlf _]%andb_prop]%andb_prop Hb].
  apply negb_true_iff in Hlf, Hb. by rewrite Hlf, Hb, (IH Hr).
Qed.

Lemma roundtrip_url_parts u :
  roundtrip_url u = true ->
  exists c r, u = github_prefix +:+ String c r /\ all_chars plain u = true.
Proof.
  unfold roundtrip_url. destruct (drop_prefix github_prefix u) as [[|c r]|] eqn:E; try done.
  intros H. exists c, r. split; [by apply drop_prefix_Some|done].
Qed.

Lemma re_search_row pre u tail :
  all_chars no_bracket_or_break pre = true ->
  roundtrip_url u = true ->
  re_search_repo (pre +:+ "[" +:+ u +:+ "]" +:+ tail) = Some u.
Proof.
  intros Hpre (c & r & -> & Hu)%roundtrip_url_parts.
  rewrite (re_search_skip _ _ Hpre).
  change ("[" +:+ ?x) with (String "[" x). cbn [re_search_repo].
  rewrite Ascii.eqb_refl. unfold match_after_bracket.
  rewrite app_assoc_s, drop_prefix_app, app_cons_s.
  rewrite all_chars_app in Hu. apply andb_prop in Hu as [_ Hu].
  simpl in Hu. apply andb_prop in Hu as [Hc Hr].
  pose proof (plain_no_break _ Hc) as [Hlf _]%andb_prop.
  apply negb_true_iff in Hlf. rewrite Hlf.
  by rewrite (lazy_to_bracket_stop _ _ Hr).
Qed.

Lemma re_search_clean s :
  all_chars no_bracket_or_break s = true -> re_search_repo s = None.
Proof.
  intros H. rewrite <- (app_nil_r_s s). by rewrite (re_search_skip _ _ H).
Qed.

Lemma rstrip_app_keep q a x b :
  q x = false -> rstrip q (a +:+ String x b) = a +:+ String x (rstrip q b).
Proof.
  intros Hx. induction a as [|y a IH].
  - rewrite !app_nil_l_s. simpl. rewrite Hx. by destruct (rstrip q b).
  - rewrite !app_cons_s. simpl. rewrite IH. by destruct a.
Qed.

Lemma split_cons_length sep x s :
  (length (split sep s) <= length (split sep (String x s)))%nat.
Proof.
  simpl. destruct (Ascii.eqb x sep); simpl; [lia|].
  destruct (split sep s); simpl; lia.
Qed.

Lemma split_app_length sep a b :
  (length (split sep a) <= length (split sep (a +:+ b)))%nat.
Proof.
  induction a as [|x a IH].
  - rewrite app_nil_l_s. simpl. pose proof (split_not_nil sep b).
    destruct (split sep b); simpl; [done|lia].
  - rewrite app_cons_s. simpl. destruct (Ascii.eqb x sep); simpl; [lia|].
    pose proof (split_not_nil sep a). pose proof (split_not_nil sep (a +:+ b)).
    destruct (split sep a), (split sep (a +:+ b)); simpl in *; try done; lia.
Qed.

Lemma last_two_pair {A} (l : list A) :
  (2 <= length l)%nat -> exists a b, last_two l = [a; b] /\ a ∈ l /\ b ∈ l.
Proof.
  intros Hl. unfold last_two.
  assert (Hd : length (drop (length l - 2) l) = 2%nat) by (rewrite length_drop; lia).
  pose proof (subseteq_drop (length l - 2) l) as Hsub.
  destruct (drop (length l - 2) l) as [|a [|b [|]]]; try done.
  exists a, b. split; [done|]. split; apply Hsub; set_solver.
Qed.

Lemma roundtrip_url_owner_name u :
  roundtrip_url u = true ->
  exists owner repo_name,
    last_two (split "/" (strip is_slash u)) = [owner; repo_name] /\
    all_chars no_bracket_or_break owner = true /\
    all_chars no_bracket_or_break repo_name = true.
Proof.
  intros (c & r & -> & Hu)%roundtrip_url_parts.
  assert (Hclean : all_chars no_bracket_or_break (github_prefix +:+ String c r) = true).
  { eapply all_chars_mono; [|exact Hu]. unfold plain. by intros ? [? _]%andb_prop. }
  set (u := github_prefix +:+ String c r) in *.
  assert (Hlen : (2 <= length (split "/" (strip is_slash u)))%nat).
  { unfold strip, u.
    change (github_prefix +:+ String c r)
      with ("https://github.co" +:+ String "m" ("/" +:+ String c r)).
    change (lstrip is_slash ?x) with x.
    rewrite rstrip_app_keep by done.
    etrans; [|apply split_app_length]. vm_compute. lia. }
  destruct (last_two_pair _ Hlen) as (owner & repo_name & E & Ho & Hn).
  exists owner, repo_name. split; [done|].
  pose proof (all_chars_split no_bracket_or_break "/" _
                (all_chars_strip _ is_slash _ Hclean)) as Hall.
  rewrite Forall_forall in Hall. auto.
Qed.


Lemma digits_ok : all_chars no_bracket_or_break "0123456789-" = true.
Proof. reflexivity. Qed.

Lemma report_row_ok rt i repo u :
  report_ready rt repo u ->
  exists pre, all_chars no_bracket_or_break pre = true /\
    report_row rt i repo = Ret (row_body pre u +:+ nl).
Proof.
  intros (Hurl & Hu & (stars & Hstars) & (size & Hsize & Hfmt)).
  destruct (roundtrip_url_owner_name _ Hu) as (owner & repo_name & E & Ho & Hn).
  exists ("| " +:+ str_of_Z (Z.of_nat i) +:+ " | `" +:+ owner +:+ "/"
          +:+ replace ".git" "" repo_name +:+ "` | " +:+ str_of_Z stars +:+ " | `"
          +:+ (format_mb_2f rt size +:+ " MB") +:+ "` | ").
  split.
  - rewrite !all_chars_app, Ho, Hfmt, !(all_chars_str_of_Z _ _ digits_ok).
    unfold replace. by rewrite (all_chars_replace_from _ _ _ _ Hn).
  - unfold report_row. rewrite Hurl. simpl. rewrite E, Hsize. simpl. rewrite Hstars. simpl.
    unfold row_body. f_equal. by rewrite !app_assoc_s.
Qed.

Lemma row_body_line pre u :
  all_chars no_bracket_or_break pre = true ->
  roundtrip_url u = true ->
  all_chars no_break (row_body pre u) = true /\
  re_search_repo (row_body pre u +:+ nl) = Some u.
Proof.
  intros Hpre Hu. split.
  - destruct (roundtrip_url_parts _ Hu) as (_ & _ & _ & Hplain).
    unfold row_body. rewrite !all_chars_app.
    rewrite (all_chars_mono _ _ _ no_bracket_or_break_no_break Hpre).
    by rewrite (all_chars_mono _ _ _ plain_no_break Hplain).
  - unfold row_body. rewrite !app_assoc_s.
    change ("](" +:+ ?x) with ("]" +:+ "(" +:+ x). by apply re_search_row.
Qed.

Lemma write_rows_ok rt repos urls : forall i written_so_far,
  Forall2 (report_ready rt) repos urls ->
  exists bodies,
    write_rows rt i repos written_so_far = (Ret tt, written_so_far +:+ unlines bodies) /\
    Forall (fun l => all_chars no_break l = true) bodies /\
    omap (fun l => re_search_repo (l +:+ nl)) bodies = urls.
Proof.
  intros i acc H. revert i acc.
  induction H as [|repo u repos urls Hr _ IH]; intros i acc.
  - exists []. simpl. by rewrite app_nil_r_s.
  - destruct (report_row_ok rt i repo u Hr) as (pre & Hpre & Hrow).
    destruct (row_body_line pre u Hpre) as [Hline Hsearch]; [by destruct Hr as (_ & ? & _)|].
    destruct (IH (S i) (acc +:+ row_body pre u +:+ nl)) as (bodies & Hw & Hb & Hs).
    exists (row_body pre u :: bodies). split; [|split].
    + simpl. rewrite Hrow, Hw. by rewrite !app_assoc_s.
    + by constructor.
    + change (omap ?f (?x :: ?l)) with
        (match f x with Some y => y :: omap f l | None => omap f l end).
      cbv beta. by rewrite Hsearch, Hs.
Qed.


Lemma report_header_unlines n t : report_header n t = unlines (header_lines n t).
Proof. unfold report_header, header_lines, unlines. simpl. by rewrite !app_assoc_s. Qed.

Lemma header_lines_clean n t :
  Forall (fun l => all_chars no_bracket_or_break l = true) (header_lines n t).
Proof.
  unfold header_lines, strftime. repeat constructor;
    rewrite ?all_chars_app, ?(all_chars_str_of_Z _ _ digits_ok),
            ?(all_chars_pad2 _ _ digits_ok); reflexivity.
Qed.

Lemma parse_lines_header n t :
  omap (fun line => url_entry <$> re_search_repo line)
       ((fun l => l +:+ nl) <$> header_lines n t) = [].
Proof.
  pose proof (header_lines_clean n t) as H.
  induction H as [|l ls Hl _ IH]; [done|].
  rewrite fmap_cons.
  change (omap ?f (?x :: ?k)) with
    (match f x with Some y => y :: omap f k | None => omap f k end).
  cbv beta. by rewrite (re_search_skip _ _ Hl), IH.
Qed.

Lemma parse_lines_bodies (bodies : list string) :
  omap (fun line => url_entry <$> re_search_repo line) ((fun l => l +:+ nl) <$> bodies)
  = url_entry <$> omap (fun l => re_search_repo (l +:+ nl)) bodies.
Proof.
  induction bodies as [|l ls IH]; [done|].
  rewrite fmap_cons.
  change (omap ?f (?x :: ?k)) with
    (match f x with Some y => y :: omap f k | None => omap f k end).
  cbv beta. destruct (re_search_repo (l +:+ nl)); simpl; by rewrite IH.
Qed.

(** C7, amended.  For every ranked list whose URLs start with
    [https://github.com/], go on with at least one character and hold no
    bracket and no line break (stars and sizes being integers), the report
    is written and parsing it yields exactly these URLs, in the order of the
    list. *)
Theorem report_roundtrip rt t repos urls :
  Forall2 (report_ready rt) repos urls ->
  exists content,
    _write_markdown_file rt t repos = (Ret tt, content) /\
    parse_markdown_for_repos (Some content) = url_entry <$> urls.
Proof.
  intros H. unfold _write_markdown_file.
  destruct (write_rows_ok rt repos urls 1 (report_header (length repos) t) H)
    as (bodies & Hw & Hb & Hs).
  eexists. split; [exact Hw|].
  unfold parse_markdown_for_repos.
  rewrite report_header_unlines, <- unlines_app, file_lines_unlines.
  - rewrite fmap_app, omap_app, parse_lines_header, parse_lines_bodies. by rewrite Hs.
  - apply Forall_app. split; [|done].
    eapply Forall_impl; [apply header_lines_clean|].
    intros l. apply all_chars_mono, no_bracket_or_break_no_break.
Qed.

End ReportFacts.

(** ** Clone/update executor *)

Section SyncFacts.









End SyncFacts.

(** ** Entry point and exit status *)

Section MainFacts.


































End MainFacts.

(** ** The claims on sample inputs *)

Section Examples.
Import Samples.

(** C1.  The URL is cached as a tombstone: instead of returning [None] the
    call raises [TypeError]. *)
Theorem fetch_tombstone_raises_TypeError :
  let cache : gmap string json := {[url_C := JNull]} in
  let n := net_of [Answer (ok 500 8000)] in
  _fetch_repo_metadata url_C cache config n = (Raise TypeError, (cache, n)).
Proof. reflexivity. Qed.

Lemma fetch_success_stores_witness :
  cache_has_size url_B ∅ = Ret false /\
  succeeds (ok 300 100) (body 300 100) /\
  fetched_size (body 300 100) = JInt 100 /\
  _fetch_repo_metadata url_B ∅ config (net_of [Answer (ok 300 100)]) =
    (Ret (record url_B 300 100),
     (<[url_B := record url_B 300 100]> ∅,
      {| pending := []; now := 1000; trace := [request_of url_B config] |})).
Proof.
  assert (H1 : cache_has_size url_B ∅ = Ret false) by reflexivity.
  assert (H2 : succeeds (ok 300 100) (body 300 100)) by (repeat split; reflexivity).
  assert (H3 : fetched_size (body 300 100) = JInt 100) by reflexivity.
  split; [exact H1|]. split; [exact H2|]. split; [exact H3|].
  exact (fetch_success_stores url_B config ∅ (ok 300 100) (body 300 100) 100 [] 1000 []
           H1 H2 H3).
Defined.

Lemma fetch_failure_keeps_cache_witness :
  cache_has_size url_A ∅ = Ret false /\
  _fetch_repo_metadata url_A ∅ config (net_of [Answer not_found]) =
    (Ret JNull,
     (∅, {| pending := []; now := 1000; trace := [request_of url_A config] |})).
Proof.
  assert (H1 : cache_has_size url_A ∅ = Ret false) by reflexivity.
  split; [exact H1|].
  refine (fetch_failure_keeps_cache url_A config ∅ (Answer not_found) [] 1000 [] H1 _).
  left. exists not_found. split; [reflexivity|]. simpl. constructor.
Defined.



(** C8: a successful answer without the two fields yields a record. *)
Lemma missing_fields_yield_a_record :
  succeeds ok_empty [] /\
  dict_get "size" [] = None /\ dict_get "stargazers_count" [] = None /\
  (_fetch_repo_metadata url_B ∅ config (net_of [Answer ok_empty])).1 =
    Ret (record url_B 0 0) /\
  (_fetch_repo_metadata url_B ∅ config (net_of [Answer ok_empty])).1 <> Ret JNull.
Proof. repeat split; try reflexivity. discriminate. Qed.

Lemma missing_fields_default_to_zero_witness :
  cache_has_size url_B ∅ = Ret false /\
  succeeds ok_empty [] /\
  _fetch_repo_metadata url_B ∅ config (net_of [Answer ok_empty]) =
    (Ret (record url_B 0 0),
     (<[url_B := record url_B 0 0]> ∅,
      {| pending := []; now := 1000; trace := [request_of url_B config] |})).
Proof.
  assert (H1 : cache_has_size url_B ∅ = Ret false) by reflexivity.
  assert (H2 : succeeds ok_empty []) by (repeat split; reflexivity).
  split; [exact H1|]. split; [exact H2|].
  refine (proj1 (missing_fields_default_to_zero url_B config ∅ ok_empty [] 0 [] 1000 []
                   H1 H2 (or_introl eq_refl) eq_refl _)).
  simpl. lia.
Defined.


Lemma ranking_sorted_and_truncated_witness :
  let l := [record url_A 3 1; record url_B 5 1; record url_C 3 2] in
  (0 <= TOP_N_REPOS config)%Z /\
  Forall has_int_stars l /\
  exists top_repos,
    rank_select config l = Ret top_repos /\
    (Z.of_nat (length top_repos) <= TOP_N_REPOS config)%Z /\
    StronglySorted (fun a b => (stars_of b <= stars_of a)%Z) top_repos.
Proof.
  intros l.
  assert (H1 : (0 <= TOP_N_REPOS config)%Z) by (simpl; lia).
  assert (H2 : Forall has_int_stars l).
  { repeat constructor; eexists; reflexivity. }
  split; [exact H1|]. split; [exact H2|].
  destruct (ranking_sorted_and_truncated config l H1 H2) as (top & E & Hlen & Hs & _).
  exists top. split; [exact E|]. split; [exact Hlen|exact Hs].
Defined.

(** C7: a repository listed under [http://] is written to the report and
    not read back. *)
Lemma http_url_lost_in_roundtrip :
  let repos := [record "http://github.com/o/r" 5 128] in
  exists content,
    _write_markdown_file rt t0 repos = (Ret tt, content) /\
    omap url_of repos = ["http://github.com/o/r"] /\
    parse_markdown_for_repos (Some content) = [].
Proof. eexists. split; [reflexivity|]. split; reflexivity. Qed.

Lemma report_roundtrip_witness :
  let repos := [record url_B 300 100; record url_A 5 128] in
  Forall2 (report_ready rt) repos [url_B; url_A] /\
  exists content,
    _write_markdown_file rt t0 repos = (Ret tt, content) /\
    parse_markdown_for_repos (Some content) = [url_entry url_B; url_entry url_A].
Proof.
  intros repos.
  assert (H : Forall2 (report_ready rt) repos [url_B; url_A]).
  { repeat constructor; try reflexivity; eexists; try split; reflexivity. }
  split; [exact H|]. exact (report_roundtrip rt t0 repos [url_B; url_A] H).
Defined.





(** The scenario of the spec: A is not found, B is kept, C is too large and
    gets a tombstone. *)
Lemma first_run_ranks_B :
  exists w',
    get_top_repos_from_api rt config first_run = (Ret [record url_B 300 100], w') /\
    exists cache, cache_file w' = Some (Some cache) /\
      cache !! url_A = None /\
      cache !! url_B = Some (record url_B 300 100) /\
      cache !! url_C = Some JNull.
Proof. eexists. split; [reflexivity|]. eexists. repeat split; reflexivity. Qed.

(** The next run, once the report is deleted, meets the tombstone of C. *)
Lemma second_run_dies_on_tombstone :
  let w' := (get_top_repos_from_api rt config first_run).2 in
  let second_run :=
    {| repo_list_file := repo_list_file w'; report_file := None;
       cache_file := cache_file w'; net := net_of [Answer not_found];
       today := t0; shell := shell_of ∅ [] |} in
  (main rt None second_run).1 = Raise TypeError /\
  exit_status (main rt None second_run).1 = Some 1%Z.
Proof. split; reflexivity. Qed.

(** A body that decodes to something else than an object is no
    transport-level failure: [data.get] raises [AttributeError]. *)
Lemma non_object_body_raises_AttributeError :
  let response :=
    {| status_code := 200; headers := []; json_body := Some (JStr "ok") |} in
  _fetch_repo_metadata url_B ∅ config (net_of [Answer response]) =
    (Raise AttributeError,
     (∅, {| pending := []; now := 1000; trace := [request_of url_B config] |})).
Proof. reflexivity. Qed.

Lemma cached_entry_returned_witness :
  let cache : gmap string json := {[url_B := record url_B 300 100]} in
  _fetch_repo_metadata url_B cache config (net_of [Answer not_found]) =
    (Ret (record url_B 300 100), (cache, net_of [Answer not_found])).
Proof.
  intros cache.
  refine (cached_entry_returned url_B config cache _ 100 _ eq_refl eq_refl _).
  simpl. lia.
Defined.

Lemma cached_oversize_skipped_witness :
  let cache : gmap string json := {[url_C := record url_C 500 8000]} in
  _fetch_repo_metadata url_C cache config (net_of [Answer not_found]) =
    (Ret JNull, (cache, net_of [Answer not_found])).
Proof.
  intros cache.
  refine (cached_oversize_skipped url_C config cache _ 8000 _ eq_refl eq_refl _).
  simpl. lia.
Defined.

End Examples.

(** * Further properties *)

(** ** Metadata fetcher: cache discipline *)

Section FetchCache.
Context (repo_url : string) (config : Config).

Lemma cached_answer_value (cache : gmap string json) v :
  cache_has_size repo_url cache = Ret true ->
  cached_answer repo_url cache config = Ret v ->
  v <> JNull ->
  cache !! repo_url = Some v /\ within_limit config v.
Proof.
  unfold cache_has_size, cached_answer.
  destruct (cache !! repo_url) as [entry|]; [|done].
  destruct entry as [| | |s|d]; simpl; try done.
  intros _. destruct (dict_get "size" d) as [size|] eqn:Es; simpl; [|done].
  destruct (py_gt_int size (MAX_REPO_SIZE_KB config)) as [[]| |] eqn:Eg; simpl; try done.
  - by intros [= <-].
  - intros [= <-] _. split; [done|]. by exists d, size.
Qed.

Lemma store_fetched_value (cache : gmap string json) response v cache' :
  store_fetched repo_url cache config response = (Ret v, cache') ->
  v <> JNull ->
  cache' !! repo_url = Some v /\ within_limit config v.
Proof.
  unfold store_fetched. destruct (_ && _); [done|].
  destruct (json_body response) as [data|]; [|done].
  destruct (py_get data "size" (JInt 0)) as [size| |]; try done.
  destruct (py_gt_int size (MAX_REPO_SIZE_KB config)) as [[]| |] eqn:Eg; try done.
  - by intros [= <- <-].
  - destruct (py_get data "stargazers_count" (JInt 0)) as [stars| |]; try done.
    intros [= <- <-] _. split; [apply lookup_insert_eq|].
    by eexists _, size.
Qed.

Lemma fetch_from_value replies : forall clock events (cache : gmap string json) v cache' net',
  fetch_from replies clock events repo_url cache config = (Ret v, (cache', net')) ->
  v <> JNull ->
  cache' !! repo_url = Some v /\ within_limit config v.
Proof.
  induction replies as [|reply rest IH]; intros clock events cache v cache' net' E Hv.
  - destruct (cache_has_size repo_url cache) as [[]|e|] eqn:Ec.
    + rewrite fetch_from_hit in E by done. injection E as E <- _.
      by apply cached_answer_value.
    + simpl in E. by rewrite Ec in E.
    + by rewrite (fetch_from_raise _ _ _ _ _ _ _ Ec) in E.
    + simpl in E. by rewrite Ec in E.
  - destruct (cache_has_size repo_url cache) as [[]|e|] eqn:Ec.
    + rewrite fetch_from_hit in E by done. injection E as E <- _.
      by apply cached_answer_value.
    + destruct reply as [|response].
      { rewrite fetch_from_failed in E by done. injection E as <- _ _; congruence. }
      destruct (excluded_status response) eqn:Hx.
      { rewrite fetch_from_excluded in E by done. injection E as <- _ _; congruence. }
      destruct (rate_limited response) as [[]|e|] eqn:Hr.
      * destruct (reset_time_of response clock) as [reset_time|e|] eqn:Ht.
        -- rewrite (fetch_from_retry _ _ _ _ _ _ _ reset_time) in E by done.
           rewrite except_RequestException_id in E by apply fetch_from_catches.
           by eapply IH.
        -- simpl in E. rewrite Ec, Hx, Hr, Ht in E.
           destruct e; simpl in E; simplify_eq; congruence.
        -- simpl in E. by rewrite Ec, Hx, Hr, Ht in E.
      * rewrite fetch_from_stored in E by done.
        destruct (store_fetched repo_url cache config response) as [r c1] eqn:Es.
        destruct r as [a|[]|]; simpl in E; simplify_eq; try done.
        by eapply store_fetched_value.
      * simpl in E. rewrite Ec, Hx, Hr in E.
        destruct e; simpl in E; simplify_eq; congruence.
      * simpl in E. by rewrite Ec, Hx, Hr in E.
    + by rewrite (fetch_from_raise _ _ _ _ _ _ _ Ec) in E.
    + simpl in E. by rewrite Ec in E.
Qed.

Lemma fetch_from_written replies clock events (cache : gmap string json) :
  exists w, (fetch_from replies clock events repo_url cache config).2.1
            = written repo_url w cache.
Proof.
  destruct (cache_has_size repo_url cache) as [[]|e|] eqn:Ec.
  - rewrite fetch_from_hit by done. by exists None.
  - destruct (fetch_from_miss_uniform repo_url config cache cache replies Ec Ec clock events)
      as (r & w & net' & -> & _). by exists w.
  - rewrite (fetch_from_raise _ _ _ _ _ _ _ Ec). by exists None.
  - exists None. destruct replies; simpl; by rewrite Ec.
Qed.






Lemma cached_answer_ends (cache : gmap string json) :
  cached_answer repo_url cache config <> Stalled.
Proof.
  unfold cached_answer. destruct (cache !! repo_url) as [entry|]; [|done].
  destruct entry as [| | |s|d]; simpl; try done.
  destruct (dict_get "size" d) as [[|b|n|s|d']|]; simpl; try done;
    by destruct (_ <? _)%Z.
Qed.

Lemma cache_has_size_ends (cache : gmap string json) :
  cache_has_size repo_url cache <> Stalled.
Proof.
  unfold cache_has_size. destruct (cache !! repo_url) as [[]|]; done.
Qed.

Lemma int_of_str_ends s : int_of_str s <> Stalled.
Proof.
  unfold int_of_str. by destruct (match strip is_space s with "" => _ | _ => _ end).
Qed.

Lemma rate_limited_ends response : rate_limited response <> Stalled.
Proof.
  unfold rate_limited. destruct (_ =? _)%Z; [done|].
  destruct (headers_get _ _) as [v|]; [|done].
  pose proof (int_of_str_ends v). by destruct (int_of_str v).
Qed.

Lemma reset_time_of_ends response clock : reset_time_of response clock <> Stalled.
Proof.
  unfold reset_time_of. destruct (headers_get _ _); [apply int_of_str_ends|done].
Qed.

Lemma store_fetched_ends (cache : gmap string json) response :
  (store_fetched repo_url cache config response).1 <> Stalled.
Proof.
  unfold store_fetched. destruct (_ && _); [done|].
  destruct (json_body response) as [data|]; [|done].
  destruct data as [| | | |d]; simpl; try done.
  destruct (default (JInt 0) (dict_get "size" d)) as [|b|n|s|d']; simpl; try done;
    by destruct (_ <? _)%Z.
Qed.

(** A record the fetcher returns passed the size filter, is the cache entry
    of its URL from then on, and is served from the cache, without any
    request, by every later call. *)
Theorem fetched_record_is_cached (cache cache' : gmap string json) net net' v :
  _fetch_repo_metadata repo_url cache config net = (Ret v, (cache', net')) ->
  v <> JNull ->
  within_limit config v /\
  cache' !! repo_url = Some v /\
  forall net2,
    _fetch_repo_metadata repo_url cache' config net2 = (Ret v, (cache', net2)).
Proof.
  intros E Hv. unfold _fetch_repo_metadata in *.
  destruct (fetch_from_value _ _ _ _ _ _ _ E Hv) as [Hc (d & size & -> & Hs & Hg)].
  split; [by exists d, size|]. split; [done|]. intros net2.
  rewrite fetch_from_hit.
  - unfold cached_answer. rewrite Hc. simpl. rewrite Hs. simpl. rewrite Hg.
    by destruct net2.
  - unfold cache_has_size. rewrite Hc. simpl. by rewrite Hs.
Qed.

(** A call reads and writes the cache under its own URL only. *)
Theorem fetch_touches_only_its_url (cache : gmap string json) net other :
  other <> repo_url ->
  (_fetch_repo_metadata repo_url cache config net).2.1 !! other = cache !! other.
Proof.
  intros Hne. unfold _fetch_repo_metadata.
  destruct (fetch_from_written (pending net) (now net) (trace net) cache) as [w ->].
  destruct w as [entry|]; simpl; [|done]. by rewrite lookup_insert_ne.
Qed.


(** A call that does not end was answered by rate-limit signals only: every
    scripted reply was one, all were consumed, and the cache is untouched. *)
Theorem fetch_stalls_only_when_throttled (cache : gmap string json) net :
  (_fetch_repo_metadata repo_url cache config net).1 = Stalled ->
  Forall retried (pending net) /\
  (_fetch_repo_metadata repo_url cache config net).2.1 = cache /\
  pending (_fetch_repo_metadata repo_url cache config net).2.2 = [].
Proof.
  unfold _fetch_repo_metadata. destruct net as [replies clock events]. simpl.
  revert clock events cache.
  induction replies as [|reply rest IH]; intros clock events cache;
    pose proof (cache_has_size_ends cache) as Hce;
    destruct (cache_has_size repo_url cache) as [[]|e0|] eqn:Ec; try done.
  - rewrite fetch_from_hit by done. simpl. intros E. by apply cached_answer_ends in E.
  - simpl. by rewrite Ec.
  - by rewrite (fetch_from_raise _ _ _ _ _ _ _ Ec).
  - rewrite fetch_from_hit by done. simpl. intros E. by apply cached_answer_ends in E.
  - destruct reply as [|response]; [by rewrite fetch_from_failed|].
    destruct (excluded_status response) eqn:Hx; [by rewrite fetch_from_excluded|].
    pose proof (rate_limited_ends response) as Hre.
    destruct (rate_limited response) as [[]|e1|] eqn:Hr; try done.
    + pose proof (reset_time_of_ends response clock) as Hte.
      destruct (reset_time_of response clock) as [reset_time|e1|] eqn:Ht; try done.
      * rewrite (fetch_from_retry _ _ _ _ _ _ _ reset_time) by done.
        rewrite except_RequestException_id by apply fetch_from_catches.
        intros E. destruct (IH _ _ _ E) as (Hall & Hc & Hp).
        split; [|done]. constructor; [by exists response|done].
      * simpl. rewrite Ec, Hx, Hr. simpl. rewrite Ht. by destruct e1.
    + rewrite fetch_from_stored by done.
      pose proof (store_fetched_ends cache response) as Hs.
      destruct (store_fetched repo_url cache config response) as [[a|[]|] c1]; done.
    + simpl. rewrite Ec, Hx. simpl. rewrite Hr. by destruct e1.
  - by rewrite (fetch_from_raise _ _ _ _ _ _ _ Ec).
Qed.

(** After an answer over the size limit the URL is a tombstone, and every
    later call for it raises [TypeError] without any request. *)
Theorem oversize_answer_poisons_cache (cache : gmap string json) response data size
    rest clock events :
  cache_has_size repo_url cache = Ret false ->
  succeeds response data ->
  fetched_size data = JInt size ->
  (MAX_REPO_SIZE_KB config < size)%Z ->
  exists cache' net',
    _fetch_repo_metadata repo_url cache config
        {| pending := Answer response :: rest; now := clock; trace := events |}
      = (Ret JNull, (cache', net')) /\
    cache' !! repo_url = Some JNull /\
    forall net2,
      _fetch_repo_metadata repo_url cache' config net2 = (Raise TypeError, (cache', net2)).
Proof.
  intros Hmiss Hok Hsize Hlt. pose proof Hok as (Hx & Hr & _).
  unfold _fetch_repo_metadata. cbn [pending now trace].
  rewrite fetch_from_stored by done.
  rewrite (store_fetched_ok _ _ _ _ _ _ Hok Hsize).
  replace (MAX_REPO_SIZE_KB config <? size)%Z with true by lia.
  eexists _, _. split; [reflexivity|]. split; [apply lookup_insert_eq|].
  intros net2. rewrite (fetch_from_raise _ _ _ _ _ _ TypeError); [by destruct net2|].
  unfold cache_has_size. by rewrite lookup_insert_eq.
Qed.

(** A successful answer whose body decodes to something else than an object
    is not caught: [data.get] raises [AttributeError]; the cache is left as
    it was. *)
Theorem non_object_body_raises (cache : gmap string json) response data rest clock events :
  cache_has_size repo_url cache = Ret false ->
  excluded_status response = false ->
  rate_limited response = Ret false ->
  ((400 <=? status_code response)%Z && (status_code response <? 600)%Z) = false ->
  json_body response = Some data ->
  (forall d, data <> JDict d) ->
  _fetch_repo_metadata repo_url cache config
      {| pending := Answer response :: rest; now := clock; trace := events |}
    = (Raise AttributeError,
       (cache, {| pending := rest; now := clock;
                  trace := events ++ [request_of repo_url config] |})).
Proof.
  intros Hmiss Hx Hr Hst Hbody Hd.
  unfold _fetch_repo_metadata. cbn [pending now trace].
  rewrite fetch_from_stored by done. unfold store_fetched. rewrite Hst, Hbody.
  destruct data as [| | | |d]; try done. by destruct (Hd d).
Qed.



End FetchCache.

(** ** Ranking pipeline *)

Section PipelineFacts.
Context (config : Config).

Lemma within_limit_hit url (cache : gmap string json) v :
  cache !! url = Some v -> within_limit config v ->
  cache_has_size url cache = Ret true.
Proof.
  intros Hc (d & size & -> & Hs & _). unfold cache_has_size. rewrite Hc. simpl.
  by rewrite Hs.
Qed.

Lemma within_limit_truthy v : within_limit config v -> py_truthy v = true.
Proof. intros (d & size & -> & Hs & _). by destruct d. Qed.

Lemma fetch_keeps_collected url (cache : gmap string json) n v :
  collected_ok config cache v ->
  collected_ok config (_fetch_repo_metadata url cache config n).2.1 v.
Proof.
  intros [Hw [u Hu]]. split; [done|]. exists u. unfold _fetch_repo_metadata.
  destruct (decide (u = url)) as [->|Hne].
  - rewrite fetch_from_hit by by eapply within_limit_hit. done.
  - destruct (fetch_from_written url config (pending n) (now n) (trace n) cache) as [w ->].
    destruct w; simpl; [by rewrite lookup_insert_ne|done].
Qed.

Lemma collect_collected urls : forall (cache : gmap string json) n acc all cache' n',
  collect urls cache config n acc = (Ret all, (cache', n')) ->
  Forall (collected_ok config cache) acc ->
  Forall (collected_ok config cache') all.
Proof.
  induction urls as [|url urls IH]; intros cache n acc all cache' n' E Hacc.
  - simpl in E. by simplify_eq.
  - simpl in E.
    pose proof (fun v => fetch_keeps_collected url cache n v) as Hkeep.
    destruct (_fetch_repo_metadata url cache config n) as [[v|e|] [c1 n1]] eqn:Ef;
      [|done..].
    simpl in Hkeep. eapply IH; [exact E|].
    assert (Hacc1 : Forall (collected_ok config c1) acc).
    { eapply Forall_impl; [exact Hacc|]. intros x. apply Hkeep. }
    destruct (py_truthy v) eqn:Ht; [|done].
    apply Forall_app. split; [done|]. constructor; [|done].
    assert (Hv : v <> JNull) by (by intros ->).
    destruct (fetch_from_value url config _ _ _ _ _ _ _ Ef Hv) as [Hc Hw].
    split; [done|]. by exists url.
Qed.

Lemma insert_by_perm_any {A} (le : A -> A -> bool) x l : insert_by le x l ≡ₚ x :: l.
Proof.
  induction l as [|y l IH]; simpl; [done|].
  destruct (le x y); [done|]. rewrite IH. apply Permutation_swap.
Qed.

Lemma sort_reverse_perm_any {A} (le : A -> A -> bool) l : sort_reverse le l ≡ₚ l.
Proof.
  unfold sort_reverse. rewrite reverse_Permutation.
  rewrite <- (reverse_Permutation l) at 2.
  induction (reverse l) as [|x k IH]; simpl; [done|].
  by rewrite insert_by_perm_any, IH.
Qed.

Lemma length_mapM_result {A B} (f : A -> result B) l k :
  mapM f l = Ret k -> length k = length l.
Proof.
  revert k. induction l as [|x l IH]; intros k; [by intros [= <-]|].
  change (mapM f (x :: l)) with (f x ≫= fun y => mapM f l ≫= fun k => Ret (y :: k)).
  destruct (f x) as [y| |]; simpl; [|done..].
  destruct (mapM f l) as [k'| |]; simpl; [|done..].
  intros [= <-]. simpl. f_equal. by apply IH.
Qed.

Lemma list_sort_reverse_perm key l sorted :
  list_sort_reverse key l = Ret sorted -> sorted ≡ₚ l.
Proof.
  unfold list_sort_reverse.
  destruct (mapM key l) as [keys| |] eqn:Ek; simpl; [|done..].
  apply length_mapM_result in Ek.
  destruct (mapM int_key keys) as [ks|] eqn:Ei.
  - intros [= <-]. apply length_mapM in Ei.
    rewrite sort_reverse_perm_any. rewrite snd_zip by lia. done.
  - destruct (mapM str_key keys) as [ks|] eqn:Es.
    + intros [= <-]. apply length_mapM in Es.
      rewrite sort_reverse_perm_any. rewrite snd_zip by lia. done.
    + case_bool_decide; [by intros [= <-]|done].
Qed.

Lemma slice_to_sublist {A} n (l : list A) : slice_to n l `sublist_of` l.
Proof. unfold slice_to. destruct (0 <=? n)%Z; apply sublist_take. Qed.

Lemma rank_select_submseteq l top : rank_select config l = Ret top -> top ⊆+ l.
Proof.
  unfold rank_select.
  destruct (list_sort_reverse _ l) as [sorted| |] eqn:E; simpl; [|done..].
  intros [= <-]. rewrite <- (list_sort_reverse_perm _ _ _ E).
  apply sublist_submseteq, slice_to_sublist.
Qed.

(** Every repository of a ranking passed the size filter and is, in the
    cache file the run saved, the entry of some URL; with a non-negative
    top-N the ranking has at most N entries. *)
Theorem ranking_lists_cached_records_within_limit rt w top w' :
  get_top_repos_from_api rt config w = (Ret top, w') ->
  (exists cache', cache_file w' = Some (Some cache') /\
     Forall (collected_ok config cache') top) /\
  ((0 <= TOP_N_REPOS config)%Z ->
   (Z.of_nat (length top) <= TOP_N_REPOS config)%Z).
Proof.
  unfold get_top_repos_from_api.
  destruct (_load_cache w) as [cache| |]; [|done..].
  destruct (repo_list_file w) as [content|]; [|done].
  destruct (collect _ cache config (net w) []) as [[all| |] [cache' n']] eqn:Ec; [|done..].
  destruct (rank_select config all) as [top_repos| |] eqn:Er; [|done..].
  destruct (_write_markdown_file rt (today w) top_repos) as [[[]| |] content'];
    simpl; [|done..].
  intros [= <- <-]. split.
  - exists cache'. split; [done|].
    pose proof (collect_collected _ _ _ _ _ _ _ Ec (Forall_nil_2 _)) as Hall.
    rewrite Forall_forall in Hall |- *. intros v Hv. apply Hall.
    by eapply elem_of_submseteq; [|apply rank_select_submseteq].
  - intros Hn. unfold rank_select in Er.
    destruct (list_sort_reverse _ all) as [sorted| |]; simpl in Er; [|done..].
    injection Er as <-. unfold slice_to. replace (0 <=? TOP_N_REPOS config)%Z with true by lia.
    rewrite length_take. lia.
Qed.

Lemma collect_cached urls : forall (cache : gmap string json) n acc,
  Forall (fun url => exists v, cache !! url = Some v /\ within_limit config v) urls ->
  exists all, collect urls cache config n acc = (Ret all, (cache, n)).
Proof.
  induction urls as [|url urls IH]; intros cache n acc Hall; [by eexists|].
  inversion Hall as [|? ? (v & Hc & Hw) Hrest]; subst. simpl.
  destruct Hw as (d & size & -> & Hs & Hg).
  unfold _fetch_repo_metadata. rewrite fetch_from_hit
    by (unfold cache_has_size; rewrite Hc; simpl; by rewrite Hs).
  unfold cached_answer. rewrite Hc. simpl. rewrite Hs. simpl. rewrite Hg.
  destruct n as [p c t]. simpl. apply IH. done.
Qed.

(** A run whose listed URLs are all cached within the size limit is
    offline: no request is sent and no sleep happens; the cache file is left
    alone or rewritten with what was loaded. *)
Theorem cached_run_is_offline rt w cache content :
  _load_cache w = Ret cache ->
  repo_list_file w = Some content ->
  Forall (fun url => exists v, cache !! url = Some v /\ within_limit config v)
         (read_urls rt content) ->
  let w' := (get_top_repos_from_api rt config w).2 in
  net w' = net w /\
  (cache_file w' = cache_file w \/ cache_file w' = Some (Some cache)).
Proof.
  intros Hl Hf Hall. unfold get_top_repos_from_api. rewrite Hl, Hf.
  destruct (collect_cached _ cache (net w) [] Hall) as [all ->].
  destruct (rank_select config all) as [top| |]; simpl; [|by auto..].
  destruct (_write_markdown_file rt (today w) top) as [[[]| |] content']; simpl; auto.
Qed.

(** Truncation keeps the most starred: the ranking and the records it drops
    make up the input, the ranking has [min(N, len)] entries, and no dropped
    record has more stars than a kept one. *)
Theorem ranking_keeps_the_most_starred (all_repos_data : list json) :
  (0 <= TOP_N_REPOS config)%Z ->
  Forall has_int_stars all_repos_data ->
  exists top_repos dropped,
    rank_select config all_repos_data = Ret top_repos /\
    top_repos ++ dropped ≡ₚ all_repos_data /\
    length top_repos = Nat.min (Z.to_nat (TOP_N_REPOS config)) (length all_repos_data) /\
    forall x y, x ∈ top_repos -> y ∈ dropped -> (stars_of y <= stars_of x)%Z.
Proof.
  intros Hn Hl.
  set (sorted := sort_reverse le_stars all_repos_data).
  exists (take (Z.to_nat (TOP_N_REPOS config)) sorted),
         (drop (Z.to_nat (TOP_N_REPOS config)) sorted).
  split; [|split; [|split]].
  - unfold rank_select. rewrite (list_sort_reverse_int_stars _ Hl). simpl.
    by rewrite slice_to_take.
  - rewrite take_drop. apply (sort_reverse_perm stars_of).
  - rewrite length_take. f_equal.
    apply Permutation_length, (sort_reverse_perm stars_of).
  - intros x y Hx Hy.
    pose proof (sort_reverse_sorted stars_of all_repos_data) as Hs.
    fold le_stars in Hs. fold sorted in Hs.
    rewrite <- (take_drop (Z.to_nat (TOP_N_REPOS config)) sorted) in Hs.
    by apply (StronglySorted_app_1_elem_of _ _ _ _ _ Hs).
Qed.

(** Error behaviour of the sort of line 64. *)

Lemma mapM_stars_KeyError (l : list json) :
  Forall (fun x => exists d, x = JDict d) l ->
  Exists (fun x => exists d, x = JDict d /\ dict_get "stars" d = None) l ->
  mapM (fun x => py_getitem x "stars") l = Raise KeyError.
Proof.
  induction 1 as [|x l [d ->] _ IH]; intros Hex; [by inversion Hex|].
  change (mapM ?f (?y :: l)) with (f y ≫= fun k => mapM f l ≫= fun ks => Ret (k :: ks)).
  simpl. destruct (dict_get "stars" d) as [v|] eqn:Ed; simpl; [|done].
  inversion Hex as [? ? (d' & Heq & Hd)|? ? Hex']; subst;
    [injection Heq as <-; congruence|].
  by rewrite (IH Hex').
Qed.

(** A record without ['stars'] among the collected ones: [KeyError]. *)
Theorem ranking_without_stars_raises_KeyError (all_repos_data : list json) :
  Forall (fun x => exists d, x = JDict d) all_repos_data ->
  Exists (fun x => exists d, x = JDict d /\ dict_get "stars" d = None) all_repos_data ->
  rank_select config all_repos_data = Raise KeyError.
Proof.
  intros Hd Hex. unfold rank_select, list_sort_reverse.
  by rewrite (mapM_stars_KeyError _ Hd Hex).
Qed.

Lemma mapM_None_elem {A B} (f : A -> option B) l x :
  x ∈ l -> f x = None -> mapM f l = None.
Proof.
  intros Hx Hf. apply mapM_None. apply Exists_exists. by exists x.
Qed.

Lemma mapM_cons_result {A B} (f : A -> result B) x l :
  mapM f (x :: l) = f x ≫= fun y => mapM f l ≫= fun k => Ret (y :: k).
Proof. reflexivity. Qed.

Lemma mapM_stars_keys (l : list json) :
  Forall (fun r => exists v, py_getitem r "stars" = Ret v) l ->
  exists keys,
    mapM (fun r => py_getitem r "stars") l = Ret keys /\
    length keys = length l /\
    forall r v, r ∈ l -> py_getitem r "stars" = Ret v -> v ∈ keys.
Proof.
  induction 1 as [|r l [v Hv] _ (ks & Hks & Hlen & Hin)].
  - exists []. split; [done|]. split; [done|]. intros r v Hr. by apply elem_of_nil in Hr.
  - exists (v :: ks). rewrite mapM_cons_result, Hv. simpl. rewrite Hks. simpl.
    split; [done|]. split; [by f_equal|].
    intros r' v' [->|Hr]%elem_of_cons Hv'; apply elem_of_cons.
    + left. congruence.
    + right. eauto.
Qed.

(** Star counts that do not compare (an integer and a string): [TypeError]. *)
Theorem ranking_mixed_stars_raises_TypeError (all_repos_data : list json) x y n s :
  Forall (fun r => exists v, py_getitem r "stars" = Ret v) all_repos_data ->
  x ∈ all_repos_data -> y ∈ all_repos_data ->
  py_getitem x "stars" = Ret (JInt n) ->
  py_getitem y "stars" = Ret (JStr s) ->
  rank_select config all_repos_data = Raise TypeError.
Proof.
  intros Hall Hx Hy Ex Ey. unfold rank_select, list_sort_reverse.
  destruct (mapM_stars_keys _ Hall) as (keys & -> & Hlen & Hin). simpl.
  rewrite (mapM_None_elem int_key keys (JStr s)) by eauto.
  rewrite (mapM_None_elem str_key keys (JInt n)) by eauto.
  rewrite bool_decide_eq_false_2; [done|].
  intros Hle. destruct all_repos_data as [|a [|b l]]; simpl in *; try lia.
  - by apply elem_of_nil in Hx.
  - apply list_elem_of_singleton in Hx, Hy. subst. congruence.
Qed.

End PipelineFacts.

(** ** Report parser and writer *)

Section ReportMore.




Lemma lstrip_no_match q s : all_chars (fun c => negb (q c)) s = true -> lstrip q s = s.
Proof. destruct s as [|c s]; simpl; [done|]. intros [Hc _]%andb_prop. by destruct (q c). Qed.

Lemma rstrip_no_match q s : all_chars (fun c => negb (q c)) s = true -> rstrip q s = s.
Proof.
  induction s as [|c s IH]; simpl; [done|]. intros [Hc Hs]%andb_prop.
  rewrite (IH Hs). destruct s; [|done]. by destruct (q c).
Qed.

Lemma split_no_match s : all_chars not_slash s = true -> split "/" s = [s].
Proof.
  induction s as [|c s IH]; simpl; [done|]. intros [Hc Hs]%andb_prop.
  rewrite (IH Hs). unfold not_slash, is_slash in Hc.
  by destruct (Ascii.eqb c "/").
Qed.

Lemma segments_of_slashless u :
  all_chars not_slash u = true -> split "/" (strip is_slash u) = [u].
Proof.
  intros Hu. unfold strip. rewrite (lstrip_no_match is_slash u Hu).
  rewrite (rstrip_no_match is_slash u Hu). by apply split_no_match.
Qed.

Lemma write_rows_app rt good : forall i acc content bad more e,
  write_rows rt i good acc = (Ret tt, content) ->
  report_row rt (i + length good) bad = Raise e ->
  write_rows rt i (good ++ bad :: more) acc = (Raise e, content).
Proof.
  induction good as [|repo good IH]; intros i acc content bad more e Hw Hb.
  - simpl in *. injection Hw as <-. rewrite Nat.add_0_r in Hb. by rewrite Hb.
  - simpl in *. destruct (report_row rt i repo) as [row| |]; [|done..].
    eapply IH; [done|]. by rewrite Nat.add_succ_comm.
Qed.

(** A URL without any slash has no owner segment: the writer raises
    [ValueError] at its row, and the file keeps the header and the rows
    written before it. *)
Theorem report_stops_at_slashless_url rt t good bad more u content :
  write_rows rt 1 good (report_header (length (good ++ bad :: more)) t)
    = (Ret tt, content) ->
  py_getitem bad "url" = Ret (JStr u) ->
  all_chars not_slash u = true ->
  _write_markdown_file rt t (good ++ bad :: more) = (Raise ValueError, content).
Proof.
  intros Hw Hurl Hu. unfold _write_markdown_file.
  eapply write_rows_app; [exact Hw|].
  unfold report_row. rewrite Hurl. simpl. by rewrite (segments_of_slashless u Hu).
Qed.

End ReportMore.

(** ** Clone/update executor *)

Section SyncMore.
Context (config : Config).




(** A repository without ['url'], or whose URL has no slash, is skipped: no
    command is run, no outcome consumed, and the loop goes on. *)
Theorem executor_skips_malformed repo sh more :
  (exists d, repo = JDict d /\ dict_get "url" d = None) \/
  (exists u, py_getitem repo "url" = Ret (JStr u) /\ all_chars not_slash u = true) ->
  sync_one config repo sh = (Ret tt, sh) /\
  sync_all config (repo :: more) sh = sync_all config more sh.
Proof.
  intros H.
  assert (E : sync_one config repo sh = (Ret tt, sh)).
  { unfold sync_one, sync_attempt. destruct H as [(d & -> & Hd)|(u & Hu & Hs)].
    - simpl. by rewrite Hd.
    - rewrite Hu. simpl. unfold target_dir_of. by rewrite (segments_of_slashless u Hs). }
  split; [done|]. simpl. by rewrite E.
Qed.

(** A ['url'] that is not a string is not covered by the [except] clause:
    [AttributeError] ends the loop, the repositories after it are not
    processed. *)
Theorem non_string_url_ends_the_loop repo v sh more :
  py_getitem repo "url" = Ret v ->
  (forall u, v <> JStr u) ->
  sync_all config (repo :: more) sh = (Raise AttributeError, sh).
Proof.
  intros Hv Hn. simpl. unfold sync_one, sync_attempt. rewrite Hv.
  destruct v as [| | |u|]; simpl; try done. by destruct (Hn u).
Qed.


Lemma rstrip_trailing_slash s : rstrip is_slash (s +:+ "/") = rstrip is_slash s.
Proof.
  induction s as [|c s IH]; [done|]. rewrite app_cons_s. simpl. by rewrite IH.
Qed.

Lemma strip_trailing_slash u : strip is_slash (u +:+ "/") = strip is_slash u.
Proof.
  unfold strip. induction u as [|c u IH]; [done|].
  rewrite app_cons_s. simpl. destruct (is_slash c); [done|].
  by rewrite <- app_cons_s, rstrip_trailing_slash.
Qed.

(** A trailing slash on the URL changes neither the API address nor the
    local directory. *)
Theorem trailing_slash_is_irrelevant u :
  api_url_of (u +:+ "/") = api_url_of u /\
  target_dir_of config (u +:+ "/") = target_dir_of config u.
Proof.
  unfold api_url_of, target_dir_of. by rewrite strip_trailing_slash.
Qed.

End SyncMore.

(** ** Whole runs *)

Section RunFacts.
Context (config : Config).

Lemma collect_tombstone urls u : forall (cache : gmap string json) n acc all,
  u ∈ urls ->
  cache !! u = Some JNull ->
  (collect urls cache config n acc).1 <> Ret all.
Proof.
  induction urls as [|url rest IH]; intros cache n acc all Hin Hc.
  { by apply elem_of_nil in Hin. }
  simpl. destruct (decide (url = u)) as [->|Hne].
  - unfold _fetch_repo_metadata.
    rewrite (fetch_from_raise _ _ _ _ _ _ TypeError); [by destruct n|].
    unfold cache_has_size. by rewrite Hc.
  - apply elem_of_cons in Hin as [->|Hin]; [done|].
    pose proof (fetch_from_written url config (pending n) (now n) (trace n) cache)
      as [wr Hw].
    unfold _fetch_repo_metadata.
    destruct (fetch_from (pending n) (now n) (trace n) url cache config)
      as [r [cache' n']] eqn:E.
    simpl in Hw. subst cache'.
    destruct r as [repo_info|e|]; simpl; [|done..].
    apply IH; [done|]. destruct wr as [entry|]; simpl; [|done].
    by rewrite lookup_insert_ne.
Qed.

(** One tombstone for a listed URL in the cache file is enough for the
    ranking never to return: the run ends in an exception (or waits on the
    rate limit before it gets there), and neither the cache file nor the
    report is written. *)
Theorem tombstone_blocks_the_ranking rt w (cache : gmap string json) content u :
  cache_file w = Some (Some cache) ->
  repo_list_file w = Some content ->
  u ∈ read_urls rt content ->
  cache !! u = Some JNull ->
  let out := get_top_repos_from_api rt config w in
  (forall top, out.1 <> Ret top) /\
  cache_file out.2 = cache_file w /\ report_file out.2 = report_file w.
Proof.
  intros Hcache Hlist Hin Hc. unfold get_top_repos_from_api, _load_cache.
  rewrite Hcache, Hlist.
  pose proof (collect_tombstone (read_urls rt content) u cache (net w) []) as Hno.
  destruct (collect (read_urls rt content) cache config (net w) [])
    as [[all|e|] [cache' n']]; simpl.
  - by destruct (Hno all Hin Hc).
  - by rewrite Hcache.
  - by rewrite Hcache.
Qed.

End RunFacts.

(** ** Entry point *)

Section MainMore.



End MainMore.

(** ** Network discipline *)

Section NetFacts.

Lemma except_RequestException_state {S} (o : result json * S) :
  (except_RequestException o).2 = o.2.
Proof. by destruct o as [[v|[]|] st]. Qed.

Lemma wait_time_of_ge_1 reset_time clock : (1 <= wait_time_of reset_time clock)%Q.
Proof.
  unfold wait_time_of.
  pose proof (Q.le_max_r (inject_Z reset_time - clock) 0). lra.
Qed.

Lemma sleeps_or_requests_mono config urls1 urls2 e :
  (forall url, url ∈ urls1 -> url ∈ urls2) ->
  sleeps_or_requests config urls1 e -> sleeps_or_requests config urls2 e.
Proof. intros Hsub [H|(url & Hin & ->)]; [by left|]. right. exists url. auto. Qed.

Lemma one_request config repo_url (events : list Event) clock :
  exists evs,
    events ++ [request_of repo_url config] = events ++ evs /\
    Forall (sleeps_or_requests config [repo_url]) evs /\ (clock <= clock)%Q.
Proof.
  exists [request_of repo_url config]. split; [done|]. split; [|apply Qle_refl].
  constructor; [|constructor]. right. exists repo_url. split; [|done].
  apply list_elem_of_here.
Qed.

Lemma fetch_from_events config repo_url replies :
  forall clock events (cache : gmap string json),
  exists evs,
    trace (fetch_from replies clock events repo_url cache config).2.2 = events ++ evs /\
    Forall (sleeps_or_requests config [repo_url]) evs /\
    (clock <= now (fetch_from replies clock events repo_url cache config).2.2)%Q.
Proof.
  assert (Hnone : forall clock (events : list Event), exists evs,
            events = events ++ evs /\
            Forall (sleeps_or_requests config [repo_url]) evs /\ (clock <= clock)%Q).
  { intros. exists []. rewrite app_nil_r. split; [done|]. split; [constructor|apply Qle_refl]. }
  induction replies as [|reply rest IH]; intros clock events cache;
    destruct (cache_has_size repo_url cache) as [[]|e0|] eqn:Ec.
  - rewrite fetch_from_hit by done. apply Hnone.
  - simpl. rewrite Ec. apply one_request.
  - rewrite (fetch_from_raise _ _ _ _ _ _ _ Ec). apply Hnone.
  - simpl. rewrite Ec. apply Hnone.
  - rewrite fetch_from_hit by done. apply Hnone.
  - destruct reply as [|response]; [rewrite fetch_from_failed by done; apply one_request|].
    destruct (excluded_status response) eqn:Hx;
      [rewrite fetch_from_excluded by done; apply one_request|].
    destruct (rate_limited response) as [[]|e1|] eqn:Hr.
    + destruct (reset_time_of response clock) as [reset_time|e1|] eqn:Ht.
      * rewrite (fetch_from_retry _ _ _ _ _ _ _ reset_time) by done.
        rewrite except_RequestException_state.
        destruct (IH (clock + wait_time_of reset_time clock)%Q
                    ((events ++ [request_of repo_url config])
                       ++ [ESleep (wait_time_of reset_time clock)]) cache)
          as (evs & -> & Hall & Hclock).
        pose proof (wait_time_of_ge_1 reset_time clock) as Hw.
        exists (request_of repo_url config :: ESleep (wait_time_of reset_time clock) :: evs).
        split; [by rewrite <- !app_assoc|]. split; [|lra].
        constructor; [right; exists repo_url; split; [apply list_elem_of_here|done]|].
        constructor; [left; eauto|done].
      * simpl. rewrite Ec, Hx, Hr. simpl. rewrite Ht.
        rewrite except_RequestException_state. apply one_request.
      * simpl. rewrite Ec, Hx, Hr. simpl. rewrite Ht. apply one_request.
    + rewrite fetch_from_stored by done. rewrite except_RequestException_state.
      destruct (store_fetched repo_url cache config response) as [r c1]. apply one_request.
    + simpl. rewrite Ec, Hx. simpl. rewrite Hr.
      rewrite except_RequestException_state. apply one_request.
    + simpl. rewrite Ec, Hx. simpl. rewrite Hr. apply one_request.
  - rewrite (fetch_from_raise _ _ _ _ _ _ _ Ec). apply Hnone.
  - simpl. rewrite Ec. apply Hnone.
Qed.

Lemma collect_events config all_urls urls :
  forall (cache : gmap string json) n acc,
  (forall url, url ∈ urls -> url ∈ all_urls) ->
  exists evs,
    trace (collect urls cache config n acc).2.2 = trace n ++ evs /\
    Forall (sleeps_or_requests config all_urls) evs /\
    (now n <= now (collect urls cache config n acc).2.2)%Q.
Proof.
  induction urls as [|url rest IH]; intros cache n acc Hsub.
  { simpl. exists []. rewrite app_nil_r. split; [done|].
    split; [constructor|apply Qle_refl]. }
  simpl. unfold _fetch_repo_metadata.
  destruct (fetch_from_events config url (pending n) (now n) (trace n) cache)
    as (evs1 & Ht1 & Hall1 & Hc1).
  assert (Hall1' : Forall (sleeps_or_requests config all_urls) evs1).
  { eapply Forall_impl; [exact Hall1|]. intros e. apply sleeps_or_requests_mono.
    intros u ->%list_elem_of_singleton. apply Hsub, list_elem_of_here. }
  destruct (fetch_from (pending n) (now n) (trace n) url cache config)
    as [[repo_info|e|] [cache1 n1]]; simpl in *; [|by exists evs1..].
  destruct (IH cache1 n1
              (if py_truthy repo_info then acc ++ [repo_info] else acc))
    as (evs2 & Ht2 & Hall2 & Hc2).
  { intros u Hu. by apply Hsub, list_elem_of_further. }
  exists (evs1 ++ evs2). split; [by rewrite Ht2, Ht1, app_assoc|].
  split; [by apply Forall_app_2|lra].
Qed.

(** Whatever a run does on the network is its own and paced: the trace only
    grows, by API requests for URLs of the input list and by sleeps of at
    least one second, and the clock never goes back. *)
Theorem run_requests_only_listed_urls rt token w :
  let w' := (main rt token w).2 in
  exists evs,
    trace (net w') = trace (net w) ++ evs /\
    Forall (sleeps_or_requests (Config_init token)
              (default [] (read_urls rt <$> repo_list_file w))) evs /\
    (now (net w) <= now (net w'))%Q.
Proof.
  assert (Hnone : exists evs,
            trace (net w) = trace (net w) ++ evs /\
            Forall (sleeps_or_requests (Config_init token)
                      (default [] (read_urls rt <$> repo_list_file w))) evs /\
            (now (net w) <= now (net w))%Q).
  { exists []. rewrite app_nil_r. split; [done|]. split; [constructor|apply Qle_refl]. }
  unfold main.
  destruct (parse_markdown_for_repos (report_file w)) as [|repo repos].
  2: { by destruct (clone_or_update_repos _ _ _). }
  unfold get_top_repos_from_api.
  destruct (_load_cache w) as [cache|e|]; [|done..].
  destruct (repo_list_file w) as [content|]; [|done]. simpl.
  destruct (collect_events (Config_init token) (read_urls rt content)
              (read_urls rt content) cache (net w) []) as (evs & Ht & Hall & Hc); [done|].
  destruct (collect (read_urls rt content) cache (Config_init token) (net w) [])
    as [[all_repos_data|e|] [cache' n']]; simpl in *; [|by exists evs..].
  destruct (rank_select (Config_init token) all_repos_data) as [top_repos|e|];
    simpl; [|by exists evs..].
  destruct (_write_markdown_file rt (today w) top_repos) as [[[]|e|] content'];
    simpl; [|by exists evs..].
  destruct (clone_or_update_repos _ _ _). simpl. by exists evs.
Qed.

End NetFacts.

(** ** Input list *)

Section ReadFacts.


End ReadFacts.

(** ** The further properties on sample inputs *)

Section FurtherExamples.
Import Samples.

Lemma cached_tombstone_raises_witness :
  let cache : gmap string json := {[url_C := JNull; url_B := record url_B 300 100]} in
  cache !! url_C = Some JNull /\
  _fetch_repo_metadata url_C cache config (net_of []) =
    (Raise TypeError, (cache, net_of [])).
Proof.
  intros cache.
  assert (H : cache !! url_C = Some JNull) by reflexivity.
  split; [exact H|]. exact (cached_tombstone_raises url_C config cache (net_of []) H).
Defined.

Lemma fetched_record_is_cached_witness :
  let v := record url_B 300 100 in
  let cache' : gmap string json := <[url_B := v]> ∅ in
  v <> JNull /\
  within_limit config v /\
  cache' !! url_B = Some v /\
  forall net2, _fetch_repo_metadata url_B cache' config net2 = (Ret v, (cache', net2)).
Proof.
  intros v cache'.
  assert (H : v <> JNull) by discriminate.
  split; [exact H|].
  exact (fetched_record_is_cached url_B config ∅ cache' (net_of [Answer (ok 300 100)])
           {| pending := []; now := 1000; trace := [request_of url_B config] |} v
           eq_refl H).
Defined.

Lemma fetch_touches_only_its_url_witness :
  let cache : gmap string json := {[url_A := JNull]} in
  url_A <> url_B /\
  (_fetch_repo_metadata url_B cache config (net_of [Answer (ok 300 100)])).2.1 !! url_A
    = Some JNull.
Proof.
  intros cache.
  assert (H : url_A <> url_B) by discriminate.
  split; [exact H|].
  exact (fetch_touches_only_its_url url_B config cache (net_of [Answer (ok 300 100)])
           url_A H).
Defined.


Lemma fetch_stalls_only_when_throttled_witness :
  let n := net_of [Answer too_many_requests; Answer too_many_requests] in
  (_fetch_repo_metadata url_B ∅ config n).1 = Stalled /\
  Forall retried (pending n) /\
  (_fetch_repo_metadata url_B ∅ config n).2.1 = ∅ /\
  pending (_fetch_repo_metadata url_B ∅ config n).2.2 = [].
Proof.
  intros n.
  assert (H : (_fetch_repo_metadata url_B ∅ config n).1 = Stalled) by reflexivity.
  split; [exact H|]. exact (fetch_stalls_only_when_throttled url_B config ∅ n H).
Defined.

Lemma oversize_answer_poisons_cache_witness :
  (MAX_REPO_SIZE_KB config < 8000)%Z /\
  exists cache' net',
    _fetch_repo_metadata url_C ∅ config (net_of [Answer (ok 500 8000)])
      = (Ret JNull, (cache', net')) /\
    cache' !! url_C = Some JNull /\
    forall net2,
      _fetch_repo_metadata url_C cache' config net2 = (Raise TypeError, (cache', net2)).
Proof.
  assert (H1 : cache_has_size url_C ∅ = Ret false) by reflexivity.
  assert (H2 : succeeds (ok 500 8000) (body 500 8000)) by (repeat split; reflexivity).
  assert (H3 : fetched_size (body 500 8000) = JInt 8000) by reflexivity.
  assert (H4 : (MAX_REPO_SIZE_KB config < 8000)%Z) by (simpl; lia).
  split; [exact H4|].
  exact (oversize_answer_poisons_cache url_C config ∅ (ok 500 8000) (body 500 8000) 8000
           [] 1000 [] H1 H2 H3 H4).
Defined.

Lemma non_object_body_raises_witness :
  let response :=
    {| status_code := 200; headers := []; json_body := Some (JStr "ok") |} in
  (forall d, JStr "ok" <> JDict d) /\
  _fetch_repo_metadata url_B ∅ config (net_of [Answer response; Answer not_found]) =
    (Raise AttributeError,
     (∅, {| pending := [Answer not_found]; now := 1000;
            trace := [] ++ [request_of url_B config] |})).
Proof.
  intros response.
  assert (H : forall d, JStr "ok" <> JDict d) by discriminate.
  split; [exact H|].
  exact (non_object_body_raises url_B config ∅ response (JStr "ok") [Answer not_found]
           1000 [] eq_refl eq_refl eq_refl eq_refl eq_refl H).
Defined.


Lemma ranking_lists_cached_records_within_limit_witness :
  let out := get_top_repos_from_api rt config first_run in
  out.1 = Ret [record url_B 300 100] /\
  (exists cache', cache_file out.2 = Some (Some cache') /\
     Forall (collected_ok config cache') [record url_B 300 100]) /\
  ((0 <= TOP_N_REPOS config)%Z -> (Z.of_nat 1 <= TOP_N_REPOS config)%Z).
Proof.
  intros out. split; [reflexivity|].
  exact (ranking_lists_cached_records_within_limit config rt first_run
           [record url_B 300 100] out.2 eq_refl).
Defined.

Lemma cached_run_is_offline_witness :
  let cache : gmap string json := {[url_B := record url_B 300 100]} in
  let w := {| repo_list_file := Some (url_B +:+ nl); report_file := None;
              cache_file := Some (Some cache); net := net_of [Answer not_found];
              today := t0; shell := shell_of ∅ [] |} in
  let w' := (get_top_repos_from_api rt config w).2 in
  net w' = net w /\
  (cache_file w' = cache_file w \/ cache_file w' = Some (Some cache)).
Proof.
  intros cache w.
  refine (cached_run_is_offline config rt w cache (url_B +:+ nl) eq_refl eq_refl _).
  assert (E : read_urls rt (url_B +:+ nl) = [url_B]) by reflexivity.
  rewrite E. constructor; [|constructor].
  exists (record url_B 300 100). split; [reflexivity|].
  exists [("url", JStr url_B); ("stars", JInt 300); ("size", JInt 100)], (JInt 100).
  split; [reflexivity|]. split; reflexivity.
Defined.

Lemma ranking_keeps_the_most_starred_witness :
  let l := [record url_A 3 1; record url_B 5 1; record url_C 4 2] in
  (0 <= TOP_N_REPOS config)%Z /\
  exists top_repos dropped,
    rank_select config l = Ret top_repos /\
    top_repos ++ dropped ≡ₚ l /\
    length top_repos = Nat.min (Z.to_nat (TOP_N_REPOS config)) (length l) /\
    forall x y, x ∈ top_repos -> y ∈ dropped -> (stars_of y <= stars_of x)%Z.
Proof.
  intros l.
  assert (H1 : (0 <= TOP_N_REPOS config)%Z) by (simpl; lia).
  assert (H2 : Forall has_int_stars l).
  { repeat constructor; eexists; reflexivity. }
  split; [exact H1|]. exact (ranking_keeps_the_most_starred config l H1 H2).
Defined.

Lemma ranking_without_stars_raises_KeyError_witness :
  let l := [record url_A 3 1; JDict [("url", JStr url_B); ("size", JInt 2)]] in
  rank_select config l = Raise KeyError.
Proof.
  intros l. refine (ranking_without_stars_raises_KeyError config l _ _).
  - repeat constructor; eexists; reflexivity.
  - right. left. eexists. split; reflexivity.
Defined.

Lemma ranking_mixed_stars_raises_TypeError_witness :
  let x := record url_A 3 1 in
  let y := Fetch.metadata_record url_B (JStr "many") (JInt 1) in
  rank_select config [x; y] = Raise TypeError.
Proof.
  intros x y.
  refine (ranking_mixed_stars_raises_TypeError config [x; y] x y 3 "many" _ _ _
            eq_refl eq_refl).
  - repeat constructor; eexists; reflexivity.
  - apply list_elem_of_here.
  - apply list_elem_of_further, list_elem_of_here.
Defined.

Lemma report_stops_at_slashless_url_witness :
  let good := [record url_B 300 100] in
  let bad := record "github.com" 1 1 in
  all_chars not_slash "github.com" = true /\
  exists content,
    write_rows rt 1 good (report_header 3 t0) = (Ret tt, content) /\
    _write_markdown_file rt t0 (good ++ bad :: [record url_A 5 128])
      = (Raise ValueError, content).
Proof.
  intros good bad.
  assert (H : all_chars not_slash "github.com" = true) by reflexivity.
  split; [exact H|]. eexists. split; [reflexivity|].
  exact (report_stops_at_slashless_url rt t0 good bad [record url_A 5 128] "github.com"
           _ eq_refl eq_refl H).
Defined.


Lemma executor_skips_malformed_witness :
  let repo := JDict [("stars", JInt 3)] in
  let sh := shell_of ∅ [ExitZero] in
  sync_one config repo sh = (Ret tt, sh) /\
  sync_all config [repo; url_entry url_A] sh = sync_all config [url_entry url_A] sh.
Proof.
  intros repo sh.
  refine (executor_skips_malformed config repo sh [url_entry url_A] _).
  left. eexists. split; reflexivity.
Defined.

Lemma non_string_url_ends_the_loop_witness :
  let repo := JDict [("url", JInt 7)] in
  let sh := shell_of ∅ [ExitZero] in
  sync_all config [repo; url_entry url_A] sh = (Raise AttributeError, sh).
Proof.
  intros repo sh.
  refine (non_string_url_ends_the_loop config repo (JInt 7) sh [url_entry url_A]
            eq_refl _).
  discriminate.
Defined.


Lemma tombstone_blocks_the_ranking_witness :
  let cache : gmap string json := {[url_C := JNull]} in
  let w := {| repo_list_file := Some (url_B +:+ nl +:+ url_C +:+ nl);
              report_file := None; cache_file := Some (Some cache);
              net := net_of [Answer (ok 300 100)];
              today := t0; shell := shell_of ∅ [] |} in
  let out := get_top_repos_from_api rt config w in
  (forall top, out.1 <> Ret top) /\
  cache_file out.2 = cache_file w /\ report_file out.2 = report_file w.
Proof.
  intros cache w.
  refine (tombstone_blocks_the_ranking config rt w cache
            (url_B +:+ nl +:+ url_C +:+ nl) url_C eq_refl eq_refl _ eq_refl).
  assert (E : read_urls rt (url_B +:+ nl +:+ url_C +:+ nl) = [url_B; url_C])
    by reflexivity.
  rewrite E. apply list_elem_of_further, list_elem_of_here.
Defined.



End FurtherExamples.
